(** * Status page: monitoring and status aggregation (app.py)

    A shallow embedding of the status-aggregation engine of [app.py]:
    the configuration loader, the severity resolver, the probe runner,
    the aggregation pass with its rolling window, the uptime figure, the
    90-day timeline builder, the monitoring loop and the data the routes
    hand to their templates, followed by the properties proved about
    them.

    Conventions of the embedding.
    - Python dictionaries keyed by strings are [gmap string _]; the
      endpoint table, whose iteration order matters, is an association
      list.
    - Python numbers that come out of [time.time()], [round] and [/] are
      exact rationals ([Q]); [round(x, 2)] is rounding to the nearest
      hundredth, ties to even.
    - Code that can raise returns an [outcome]; code that also writes the
      module globals threads a [globals] record.
    - What the program reads from outside (the configuration file, the
      network, the clocks, the time zone) is an explicit argument. *)

From Stdlib Require Import ZArith QArith Qround String Ascii List Lia Lqa.
From stdpp Require Import gmap strings list fin_maps pretty.

Local Open Scope string_scope.
Local Open Scope list_scope.
Local Open Scope Z_scope.

(** ** Exceptions and outcomes *)

(** The exception classes the program can meet, all of them subclasses of
    [Exception].  [ConnectTimeout] derives from both [ConnectionError] and
    [Timeout] in the requests library, [ReadTimeout] from [Timeout],
    [SSLError] from [ConnectionError]; [OtherException] stands for every
    other subclass of [Exception]. *)
Inductive exn : Type :=
  | FileNotFoundError
  | PermissionError
  | JSONDecodeError
  | ReadTimeout
  | ConnectTimeout
  | ConnectionError
  | SSLError
  | OtherException.

(** [isinstance(e, requests.exceptions.Timeout)] *)
Definition is_Timeout (e : exn) : bool :=
  match e with
  | ReadTimeout | ConnectTimeout => true
  | _ => false
  end.

(** [isinstance(e, requests.exceptions.ConnectionError)] *)
Definition is_ConnectionError (e : exn) : bool :=
  match e with
  | ConnectTimeout | ConnectionError | SSLError => true
  | _ => false
  end.

(** [isinstance(e, FileNotFoundError)] *)
Definition is_FileNotFoundError (e : exn) : bool :=
  match e with
  | FileNotFoundError => true
  | _ => false
  end.

Inductive outcome (A : Type) : Type :=
  | Return (a : A)
  | Raise (e : exn).
Arguments Return {A} a.
Arguments Raise {A} e.

Global Instance outcome_ret : MRet outcome := fun A a => Return a.

Global Instance outcome_bind : MBind outcome := fun A B k m =>
  match m with
  | Return a => k a
  | Raise e => Raise e
  end.

(** [try: m  except ...: handler] *)
Definition try_except {A : Type} (m : outcome A) (handler : exn -> outcome A)
  : outcome A :=
  match m with
  | Return a => Return a
  | Raise e => handler e
  end.

(** ** Numbers *)

(** [round(x, 2)]: the nearest multiple of 1/100, ties to the even one. *)
Definition round_half_even (x : Q) : Z :=
  let f := Qfloor x in
  match Qcompare (x - inject_Z f) (1 # 2) with
  | Lt => f
  | Gt => f + 1
  | Eq => if Z.even f then f else f + 1
  end.

Definition round2 (x : Q) : Q := Qmake (round_half_even (x * 100)) 100.

(** ** Configuration *)

Record status_type : Type := {
  StatusID_ : Z;
  Status : string
}.

Record category : Type := {
  CategoryID_ : Z;
  CategoryName : string
}.

(** One entry of [CurrentStatuses] or [PastIncidents].  A field is [None]
    when its key is absent from the JSON object; the two timestamps are
    POSIX times in whole seconds. *)
Record incident : Type := {
  StatusTitle : option string;
  StatusDescription : option string;
  By : option string;
  StartedAt : option Z;
  FixedAt : option Z;
  StatusID : option (list Z);
  CategoryID : option (list Z)
}.

Record config : Type := {
  ShowStatuses : bool;
  StatusCategories : list category;
  StatusTypes : list status_type;
  CurrentStatuses : list incident;
  PastIncidents : list incident
}.

(** What [open(config_path)] followed by [json.load] finds. *)
Inductive config_file : Type :=
  | Missing
  | Unreadable
  | Malformed
  | Holds (c : config).

(** [with open(config_path, 'r') as f: return json.load(f)] *)
Definition open_and_parse (f : config_file) : outcome config :=
  match f with
  | Missing => Raise FileNotFoundError
  | Unreadable => Raise PermissionError
  | Malformed => Raise JSONDecodeError
  | Holds c => Return c
  end.

Definition empty_config : config := {|
  ShowStatuses := false;
  StatusCategories := [];
  StatusTypes := [];
  CurrentStatuses := [];
  PastIncidents := []
|}.

Definition load_config (f : config_file) : outcome config :=
  try_except (open_and_parse f)
    (fun e => if is_FileNotFoundError e then Return empty_config else Raise e).

(** [x.get(key, default)] and Python truthiness of an optional number. *)
Definition get {A : Type} (o : option A) (d : A) : A :=
  match o with Some a => a | None => d end.

Definition truthy (o : option Z) : bool :=
  match o with
  | Some t => negb (t =? 0)
  | None => false
  end.

(** ** Severity resolver *)

Definition priority_map : list (Z * string) :=
  [ (4, "major-outage"); (3, "partial-outage"); (5, "maintenance");
    (2, "degraded"); (6, "investigating"); (1, "operational") ].

Fixpoint dict_get (m : list (Z * string)) (k : Z) (d : string) : string :=
  match m with
  | [] => d
  | (k', v) :: m' => if k' =? k then v else dict_get m' k d
  end.

(** [min(status_ids)] on a non-empty list *)
Definition py_min (x : Z) (xs : list Z) : Z := fold_left Z.min xs x.

Definition Z_in (x : Z) (l : list Z) : bool := existsb (Z.eqb x) l.

Definition get_status_color (status_ids : list Z) : string :=
  match status_ids with
  | [] => "operational"
  | x :: xs =>
      let highest_priority := py_min x xs in
      let highest_priority :=
        fold_left
          (fun hp status_id =>
             if Z_in status_id [4; 3; 5; 2; 6] && (status_id <? hp)
             then status_id else hp)
          status_ids highest_priority in
      dict_get priority_map highest_priority "operational"
  end.

(** The ranking as the specification words it: the first id of
    4, 3, 5, 2, 6 that occurs in the set decides, otherwise operational. *)
Definition ranking_table (status_ids : list Z) : string :=
  if Z_in 4 status_ids then "major-outage"
  else if Z_in 3 status_ids then "partial-outage"
  else if Z_in 5 status_ids then "maintenance"
  else if Z_in 2 status_ids then "degraded"
  else if Z_in 6 status_ids then "investigating"
  else "operational".

(** ** Probe runner *)

Record probe_result : Type := {
  status : string;
  response_time : option Q
}.

(** What one [requests.get(url, timeout=5)] does, and the two clock
    readings taken around it. *)
Record observation : Type := {
  reply : outcome Z;        (* the response's status code, or the exception *)
  start_time : Q;
  end_time : Q
}.

Definition check_service_health (service_name url : string) (o : observation)
  : outcome probe_result :=
  try_except
    (status_code ← reply o;
     let response_time := round2 ((end_time o - start_time o) * 1000) in
     if status_code =? 200 then
       Return {| status := "operational"; response_time := Some response_time |}
     else if Z_in status_code [500; 502; 503; 504] then
       Return {| status := "major"; response_time := Some response_time |}
     else
       Return {| status := "degraded"; response_time := Some response_time |})
    (fun e =>
       if is_Timeout e then
         Return {| status := "degraded"; response_time := Some 5000%Q |}
       else if is_ConnectionError e then
         Return {| status := "major"; response_time := None |}
       else
         Return {| status := "investigating"; response_time := None |}).

(** ** Module globals and the state-and-exception monad *)

Record globals : Type := {
  response_times : list Q;                      (* deque(maxlen=100) *)
  service_status : gmap string probe_result;
  last_check_time : Q
}.

Definition initial_globals : globals := {|
  response_times := [];
  service_status := ∅;
  last_check_time := 0%Q
|}.

Definition maxlen : nat := 100.

(** [deque.append] on a bounded deque: push right, then drop the leftmost
    element when the bound is exceeded. *)
Definition deque_append (d : list Q) (x : Q) : list Q :=
  let d' := d ++ [x] in
  if (maxlen <? length d')%nat then tail d' else d'.

(** A computation that reads and writes the globals and may raise; the
    globals written before an exception stay written. *)
Definition M (A : Type) : Type := globals -> outcome A * globals.

Global Instance M_ret : MRet M := fun A a g => (Return a, g).

Global Instance M_bind : MBind M := fun A B k m g =>
  match m g with
  | (Return a, g') => k a g'
  | (Raise e, g') => (Raise e, g')
  end.

Definition lift {A : Type} (m : outcome A) : M A := fun g => (m, g).

Definition modify (f : globals -> globals) : M unit := fun g => (Return tt, f g).

(** [for x in l: body], with the loop's local variables as [s]. *)
Fixpoint for_each {A S : Type} (l : list A) (body : A -> S -> M S) (s : S) : M S :=
  match l with
  | [] => mret s
  | a :: l' => s' ← body a s; for_each l' body s'
  end.

Definition set_service_status (name : string) (r : probe_result) (g : globals)
  : globals :=
  {| response_times := response_times g;
     service_status := <[name := r]> (service_status g);
     last_check_time := last_check_time g |}.

Definition append_response_time (x : Q) (g : globals) : globals :=
  {| response_times := deque_append (response_times g) x;
     service_status := service_status g;
     last_check_time := last_check_time g |}.

Definition set_last_check_time (t : Q) (g : globals) : globals :=
  {| response_times := response_times g;
     service_status := service_status g;
     last_check_time := t |}.

(** ** Status aggregator *)

(** What one call of [monitor_services] meets outside the program. *)
Record world : Type := {
  config_json : config_file;
  network : string -> string -> observation;   (* by service name and url *)
  clock : Q                                    (* the closing [time.time()] *)
}.

Definition endpoints_table : list (string * string) :=
  [ ("API", "https://royalguard-api.up.railway.app/");
    ("Discord Bot", "https://discord.com/api/v10/gateway");
    ("Database", "https://royalguard-api.up.railway.app/");
    ("ROBLOX API", "https://api.roblox.com/") ].

Definition get_health_endpoints (f : config_file)
  : outcome (list (string * string)) :=
  config ← load_config f;
  let endpoints := endpoints_table in
  Return endpoints.

(** The body of the loop over the endpoints; the loop's two local
    variables are its state. *)
Definition probe_endpoint (w : world) (endpoint : string * string)
    (totals : Q * Z) : M (Q * Z) :=
  let '(service_name, url) := endpoint in
  let '(total_response_time, successful_checks) := totals in
  result ← lift (check_service_health service_name url
                   (network w service_name url));
  _ ← modify (set_service_status service_name result);
  match response_time result with
  | Some t => mret ((total_response_time + t)%Q, successful_checks + 1)
  | None => mret (total_response_time, successful_checks)
  end.

Definition monitor_services (w : world) : M unit :=
  endpoints ← lift (get_health_endpoints (config_json w));
  totals ← for_each endpoints (probe_endpoint w) (0%Q, 0);
  let '(total_response_time, successful_checks) := totals in
  _ ← (if 0 <? successful_checks then
         let avg_response_time :=
           round2 (total_response_time / inject_Z successful_checks) in
         modify (append_response_time avg_response_time)
       else mret tt);
  modify (set_last_check_time (clock w)).

Definition Qsum (l : list Q) : Q := fold_left Qplus l 0%Q.

Definition get_current_response_time (g : globals) : Q :=
  match response_times g with
  | [] => 0%Q
  | _ =>
      round2 (Qsum (response_times g)
              / inject_Z (Z.of_nat (length (response_times g))))
  end.

Definition is_operational (r : probe_result) : bool :=
  String.eqb (status r) "operational".

Definition calculate_uptime (g : globals) : Q :=
  if decide (service_status g = ∅) then (9998 # 100)%Q
  else
    let values := (map_to_list (service_status g)).*2 in
    let operational_services :=
      Z.of_nat (length (List.filter is_operational values)) in
    let total_services := Z.of_nat (size (service_status g)) in
    if total_services =? 0 then (9998 # 100)%Q
    else round2 (inject_Z operational_services / inject_Z total_services * 100).

(** The globals after a run of passes, one world per pass. *)
Definition run_passes (ws : list world) (g : globals) : globals :=
  fold_left (fun g w => snd (monitor_services w g)) ws g.

(** *** Request-time refresh and the background loop *)

(** The refresh step of [index]: a pass when the last one is older than
    30 seconds at [current_time]. *)
Definition refresh_if_stale (current_time : Q) (w : world) : M unit :=
  fun g =>
    if Qlt_le_dec 30 (current_time - last_check_time g)
    then monitor_services w g
    else (Return tt, g).

(** One turn of [monitor_loop]: a pass, then the seconds to sleep. *)
Definition monitor_loop_turn (w : world) : M Z :=
  fun g =>
    match monitor_services w g with
    | (Return _, g') => (Return 30, g')
    | (Raise _, g') => (Return 60, g')
    end.

(** ** Calendar

    The parts of Python's [datetime] the timeline builder calls, after the
    library's own integer algorithms: a date is its proleptic Gregorian
    ordinal (day 1 is 0001-01-01), [ord2ymd] and [ymd2ord] convert between
    ordinals and (year, month, day).  The library's bounds on the year are
    not modelled: the calendar extends over all of [Z]. *)

Definition DAYS_IN_MONTH : list Z :=
  [-1; 31; 28; 31; 30; 31; 30; 31; 31; 30; 31; 30; 31].

Definition DAYS_BEFORE_MONTH : list Z :=
  [-1; 0; 31; 59; 90; 120; 151; 181; 212; 243; 273; 304; 334].

Definition table (t : list Z) (i : Z) : Z := nth (Z.to_nat i) t 0.

Definition is_leap (year : Z) : bool :=
  (year mod 4 =? 0) && (negb (year mod 100 =? 0) || (year mod 400 =? 0)).

Definition days_before_year (year : Z) : Z :=
  let y := year - 1 in
  y * 365 + y / 4 - y / 100 + y / 400.

Definition days_before_month (year month : Z) : Z :=
  table DAYS_BEFORE_MONTH month
  + (if (2 <? month) && is_leap year then 1 else 0).

Definition ymd2ord (year month day : Z) : Z :=
  days_before_year year + days_before_month year month + day.

Definition DI400Y : Z := 146097.
Definition DI100Y : Z := 36524.
Definition DI4Y : Z := 1461.

(** The closing steps of [_ord2ymd]: month and day of the [n]-th day
    (counted from 0) of a year. *)
Definition month_day (n : Z) (leapyear : bool) : Z * Z :=
  let month := Z.shiftr (n + 50) 5 in
  let preceding :=
    table DAYS_BEFORE_MONTH month
    + (if (2 <? month) && leapyear then 1 else 0) in
  let '(month, preceding) :=
    if n <? preceding then
      (month - 1,
       preceding - (table DAYS_IN_MONTH (month - 1)
                    + (if (month - 1 =? 2) && leapyear then 1 else 0)))
    else (month, preceding) in
  (month, n - preceding + 1).

Definition ord2ymd (n : Z) : Z * Z * Z :=
  let n := n - 1 in
  let n400 := n / DI400Y in
  let n := n mod DI400Y in
  let year := n400 * 400 + 1 in
  let n100 := n / DI100Y in
  let n := n mod DI100Y in
  let n4 := n / DI4Y in
  let n := n mod DI4Y in
  let n1 := n / 365 in
  let n := n mod 365 in
  let year := year + (n100 * 100 + n4 * 4 + n1) in
  if (n1 =? 4) || (n100 =? 4) then (year - 1, 12, 31)
  else
    let leapyear := (n1 =? 3) && (negb (n4 =? 24) || (n100 =? 3)) in
    let '(month, day) := month_day n leapyear in
    (year, month, day).

(** A naive local [datetime]: the date's ordinal and the time of day. *)
Record datetime : Type := {
  toordinal : Z;
  second_of_day : Z
}.

(** [dt - timedelta(days=i)] *)
Definition minus_days (dt : datetime) (i : Z) : datetime :=
  {| toordinal := toordinal dt - i; second_of_day := second_of_day dt |}.

Definition digit (d : Z) : ascii :=
  ascii_of_nat (Z.to_nat (48 + d)).

Definition two_digits (n : Z) : string :=
  String (digit (n / 10)) (String (digit (n mod 10)) EmptyString).

(** [dt.strftime('%Y-%m-%d')]; the year is printed in full, which is four
    digits from the year 1000 on. *)
Definition strftime_Ymd (dt : datetime) : string :=
  let '(year, month, day) := ord2ymd (toordinal dt) in
  pretty year +:+ "-" +:+ two_digits month +:+ "-" +:+ two_digits day.

(** ** Incident timeline builder *)

Record incident_summary : Type := {
  title : string;
  type : string;
  description : string;
  by_ : string;
  started_at : option Z;
  fixed_at : option Z
}.

(** A value of [incident_map] *)
Record day_data : Type := {
  data_status : string;
  data_incidents : list incident_summary
}.

(** An element of [history] *)
Record day_record : Type := {
  date : string;
  day_status : string;
  incidents : list incident_summary;
  timestamp : Z
}.

(** The [if 4 in status_ids ... elif ... else] chain that both indexing
    loops apply to an entry. *)
Definition status_of_ids (status_ids : list Z) : string :=
  if Z_in 4 status_ids then "major"
  else if Z_in 3 status_ids then "partial"
  else if Z_in 2 status_ids then "degraded"
  else if Z_in 5 status_ids then "maintenance"
  else "investigating".

(** [if date_str not in incident_map: incident_map[date_str] = {...}]
    followed by [incident_map[date_str]['incidents'].append(s)] *)
Definition index_entry (date_str status : string) (s : incident_summary)
    (incident_map : gmap string day_data) : gmap string day_data :=
  let incident_map :=
    match incident_map !! date_str with
    | None =>
        <[date_str := {| data_status := status; data_incidents := [] |}]>
          incident_map
    | Some _ => incident_map
    end in
  alter (fun d => {| data_status := data_status d;
                     data_incidents := data_incidents d ++ [s] |})
        date_str incident_map.

Definition past_summary (i : incident) : incident_summary :=
  {| title := get (StatusTitle i) "Unknown Incident";
     type := status_of_ids (get (StatusID i) []);
     description := get (StatusDescription i) "";
     by_ := get (By i) "";
     started_at := StartedAt i;
     fixed_at := FixedAt i |}.

Definition current_summary (i : incident) : incident_summary :=
  {| title := get (StatusTitle i) "Ongoing Issue";
     type := status_of_ids (get (StatusID i) []);
     description := get (StatusDescription i) "";
     by_ := get (By i) "";
     started_at := StartedAt i;
     fixed_at := None |}.

(** An entry of the log that the builder indexes: the day it is filed
    under, its status ids and the summary listed for it. *)
Record entry : Type := {
  entry_date : string;
  entry_ids : list Z;
  entry_summary : incident_summary
}.

(** Filing an entry, and the entries filed under one date. *)
Definition file_entry (m : gmap string day_data) (e : entry)
  : gmap string day_data :=
  index_entry (entry_date e) (status_of_ids (entry_ids e)) (entry_summary e) m.

Definition on_date (k : string) (es : list entry) : list entry :=
  filter (fun e => entry_date e = k) es.

Section Timeline.

(** The local time zone: the offset from UTC, in seconds, in force at a
    POSIX time, and [int(dt.timestamp())] for a naive local [dt]. *)
Variable utcoffset : Z -> Z.
Variable posix_of_local : datetime -> Z.

(** [datetime.fromtimestamp(t)]; 1970-01-01 has ordinal 719163. *)
Definition fromtimestamp (t : Z) : datetime :=
  let local := t + utcoffset t in
  {| toordinal := 719163 + local / 86400;
     second_of_day := local mod 86400 |}.

Definition index_past (incident_map : gmap string day_data) (i : incident)
  : gmap string day_data :=
  if truthy (StartedAt i) then
    let incident_date := fromtimestamp (get (StartedAt i) 0) in
    let date_str := strftime_Ymd incident_date in
    let status_ids := get (StatusID i) [] in
    index_entry date_str (status_of_ids status_ids) (past_summary i)
      incident_map
  else incident_map.

Definition index_current (incident_map : gmap string day_data) (i : incident)
  : gmap string day_data :=
  if negb (truthy (FixedAt i)) && truthy (StartedAt i) then
    let incident_date := fromtimestamp (get (StartedAt i) 0) in
    let date_str := strftime_Ymd incident_date in
    let status_ids := get (StatusID i) [] in
    index_entry date_str (status_of_ids status_ids) (current_summary i)
      incident_map
  else incident_map.

Definition build_incident_map (c : config) : gmap string day_data :=
  let incident_map := fold_left index_past (PastIncidents c) ∅ in
  fold_left index_current (CurrentStatuses c) incident_map.

Definition history_entry (incident_map : gmap string day_data)
    (today : datetime) (i : Z) : day_record :=
  let date := minus_days today i in
  let date_str := strftime_Ymd date in
  match incident_map !! date_str with
  | Some day_data =>
      {| date := date_str;
         day_status := data_status day_data;
         incidents := data_incidents day_data;
         timestamp := posix_of_local date |}
  | None =>
      {| date := date_str;
         day_status := "operational";
         incidents := [];
         timestamp := posix_of_local date |}
  end.

Definition generate_90_day_history (f : config_file) (today : datetime)
  : outcome (list day_record) :=
  config ← load_config f;
  let incident_map := build_incident_map config in
  let history := map (history_entry incident_map today) (seqZ 0 90) in
  Return (reverse history).

(** The entry the first loop files for a past incident, and the second
    loop for a current status; none when the loop skips it. *)
Definition past_entry (i : incident) : option entry :=
  if truthy (StartedAt i) then
    Some {| entry_date :=
              strftime_Ymd (fromtimestamp (get (StartedAt i) 0));
            entry_ids := get (StatusID i) [];
            entry_summary := past_summary i |}
  else None.

Definition current_entry (i : incident) : option entry :=
  if negb (truthy (FixedAt i)) && truthy (StartedAt i) then
    Some {| entry_date :=
              strftime_Ymd (fromtimestamp (get (StartedAt i) 0));
            entry_ids := get (StatusID i) [];
            entry_summary := current_summary i |}
  else None.

(** The indexed entries of a configuration, in the order the builder
    files them: the dated past incidents, then the dated current statuses
    that are not fixed. *)
Definition indexed_entries (c : config) : list entry :=
  omap past_entry (PastIncidents c) ++ omap current_entry (CurrentStatuses c).

(** The list [generate_90_day_history] returns for configuration [c]. *)
Definition history_of (c : config) (today : datetime) : list day_record :=
  reverse (map (history_entry (build_incident_map c) today)
           (seqZ 0 90)).

End Timeline.

(** [get_day_status_color] *)
Definition get_day_status_color (status : string) : string :=
  if existsb (String.eqb status) ["degraded"; "major"] then "red"
  else if existsb (String.eqb status) ["partial"; "maintenance"; "investigating"]
  then "yellow"
  else "green".

(** ** Lookups by id *)

Fixpoint get_status_by_id_loop (l : list status_type) (status_id : Z) : string :=
  match l with
  | [] => "Unknown"
  | status :: l' =>
      if StatusID_ status =? status_id then Status status
      else get_status_by_id_loop l' status_id
  end.

Definition get_status_by_id (status_id : Z) (c : config) : string :=
  get_status_by_id_loop (StatusTypes c) status_id.

Fixpoint get_category_by_id_loop (l : list category) (category_id : Z) : string :=
  match l with
  | [] => "Unknown"
  | category :: l' =>
      if CategoryID_ category =? category_id then CategoryName category
      else get_category_by_id_loop l' category_id
  end.

Definition get_category_by_id (category_id : Z) (c : config) : string :=
  get_category_by_id_loop (StatusCategories c) category_id.

(** [get_day_status_color_filter], the template filter. *)
Definition get_day_status_color_filter (status : string) : string :=
  get_day_status_color status.

(** ** The monitoring loop *)

(** The first turns of [monitor_loop], one world per turn: the seconds
    slept after each turn, and the globals. *)
Fixpoint monitor_loop (ws : list world) (g : globals) : list Z * globals :=
  match ws with
  | [] => ([], g)
  | w :: ws' =>
      match monitor_loop_turn w g with
      | (Return seconds, g') =>
          let '(sleeps, g'') := monitor_loop ws' g' in (seconds :: sleeps, g'')
      | (Raise _, g') => ([], g')
      end
  end.

(** ** Routes *)

(** The month names of [%B], in the C locale. *)
Definition month_names : list string :=
  [ "January"; "February"; "March"; "April"; "May"; "June"; "July";
    "August"; "September"; "October"; "November"; "December" ].

(** [%B] for a month number *)
Definition month_name (month : Z) : string :=
  nth (Z.to_nat (month - 1)) month_names "".

(** [dt.strftime('%B %d, %Y at %I:%M %p')] *)
Definition strftime_long (dt : datetime) : string :=
  let '(year, month, day) := ord2ymd (toordinal dt) in
  let hour := second_of_day dt / 3600 in
  let minute := (second_of_day dt mod 3600) / 60 in
  let hour12 := if hour mod 12 =? 0 then 12 else hour mod 12 in
  month_name month
  +:+ " " +:+ two_digits day +:+ ", " +:+ pretty year
  +:+ " at " +:+ two_digits hour12 +:+ ":" +:+ two_digits minute
  +:+ " " +:+ (if hour <? 12 then "AM" else "PM").

(** An element of [current_statuses] or of [past_incidents]; a current
    status has no [fixed_at] key, which is [None] here. *)
Record status_card : Type := {
  card_title : string;
  card_description : string;
  card_by : string;
  card_started_at : option string;
  card_fixed_at : option string;
  card_status_names : list string;
  card_category_names : list string;
  card_color_class : string
}.

(** An element of [categories] *)
Record category_row : Type := {
  row_name : string;
  row_status : string;
  row_status_class : string;
  row_uptime : Q
}.

(** What [index] hands to [render_template]. *)
Record index_context : Type := {
  current_statuses : list status_card;
  past_incidents : list status_card;
  categories : list category_row;
  overall_uptime : Q;
  history_data : list day_record;
  current_response_time : Q
}.

Inductive index_page : Type :=
  | NoStatuses (message : string)          (* show_statuses=False *)
  | Statuses (context : index_context).    (* show_statuses=True *)

(** An element of [incidents_for_date] *)
Record detail_card : Type := {
  detail_title : string;
  detail_type : string;
  detail_description : string;
  detail_by : string;
  detail_started_at : option string;
  detail_fixed_at : option string;
  detail_status_names : list string;
  detail_category_names : list string
}.

(** What [incident_detail] hands to [render_template]; [not_found] is
    [None] when the keyword is not passed. *)
Record detail_page : Type := {
  page_date : string;
  page_incidents : list detail_card;
  page_not_found : option bool
}.

(** What one request to [index] meets outside the program: the
    configuration file as [index] reads it, the world of the pass it may
    start, the file as the timeline builder reads it, and the two clock
    readings. *)
Record request : Type := {
  config_at_start : config_file;
  pass_world : world;
  config_for_history : config_file;
  current_time : Q;
  today : datetime
}.

Definition gets {A : Type} (f : globals -> A) : M A := fun g => (Return (f g), g).

(** The real status of a monitored category: status text and class. *)
Definition live_status (real_status : string) : string * string :=
  if String.eqb real_status "operational" then ("Operational", "operational")
  else if String.eqb real_status "degraded"
  then ("Degraded Performance", "degraded")
  else if String.eqb real_status "major" then ("Major Issues", "major-outage")
  else ("Under Investigation", "investigating").

(** The fallback loop over [CurrentStatuses], which stops at the first
    open status that names the category: [has_issues] and [status_class]. *)
Fixpoint config_status (l : list incident) (category_id : Z)
    (has_issues : bool) (status_class : string) : bool * string :=
  match l with
  | [] => (has_issues, status_class)
  | status :: l' =>
      if negb (truthy (FixedAt status))
         && Z_in category_id (get (CategoryID status) [])
      then (true, get_status_color (get (StatusID status) []))
      else config_status l' category_id has_issues status_class
  end.

(** The body of the loop over [StatusCategories]. *)
Definition category_row_of (c : config) (g : globals) (category : category)
  : category_row :=
  let category_name := CategoryName category in
  let '(status_text, status_class) :=
    match service_status g !! category_name with
    | Some service_info => live_status (status service_info)
    | None =>
        let '(has_issues, status_class) :=
          config_status (CurrentStatuses c) (CategoryID_ category)
            false "operational" in
        (if negb has_issues then "Operational" else "Issues Detected",
         status_class)
    end in
  {| row_name := category_name;
     row_status := status_text;
     row_status_class := status_class;
     row_uptime := calculate_uptime g |}.

Section Routes.

Variable utcoffset : Z -> Z.
Variable posix_of_local : datetime -> Z.

Definition format_timestamp (timestamp : option Z) : option string :=
  if truthy timestamp then
    Some (strftime_long (fromtimestamp utcoffset (get timestamp 0)))
  else None.

Definition current_card (c : config) (status : incident) : status_card :=
  {| card_title := get (StatusTitle status) "";
     card_description := get (StatusDescription status) "";
     card_by := get (By status) "";
     card_started_at := format_timestamp (StartedAt status);
     card_fixed_at := None;
     card_status_names :=
       map (fun sid => get_status_by_id sid c) (get (StatusID status) []);
     card_category_names :=
       map (fun cid => get_category_by_id cid c) (get (CategoryID status) []);
     card_color_class := get_status_color (get (StatusID status) []) |}.

Definition past_card (c : config) (incident : incident) : status_card :=
  {| card_title := get (StatusTitle incident) "";
     card_description := get (StatusDescription incident) "";
     card_by := get (By incident) "";
     card_started_at := format_timestamp (StartedAt incident);
     card_fixed_at := format_timestamp (FixedAt incident);
     card_status_names :=
       map (fun sid => get_status_by_id sid c) (get (StatusID incident) []);
     card_category_names :=
       map (fun cid => get_category_by_id cid c) (get (CategoryID incident) []);
     card_color_class := get_status_color (get (StatusID incident) []) |}.

Definition index (rq : request) : M index_page :=
  config ← lift (load_config (config_at_start rq));
  if negb (ShowStatuses config) then
    mret (NoStatuses "No statuses have been recently posted.")
  else
    let current_statuses :=
      fold_left
        (fun current_statuses status =>
           if negb (truthy (FixedAt status))
           then current_statuses ++ [current_card config status]
           else current_statuses)
        (CurrentStatuses config) [] in
    let past_incidents :=
      fold_left
        (fun past_incidents incident =>
           if truthy (FixedAt incident)
           then past_incidents ++ [past_card config incident]
           else past_incidents)
        (PastIncidents config) [] in
    _ ← refresh_if_stale (current_time rq) (pass_world rq);
    categories ←
      gets (fun g => map (category_row_of config g) (StatusCategories config));
    history_data ←
      lift (generate_90_day_history utcoffset posix_of_local
              (config_for_history rq) (today rq));
    overall_uptime ← gets calculate_uptime;
    current_response_time ← gets get_current_response_time;
    mret (Statuses {| current_statuses := current_statuses;
                      past_incidents := past_incidents;
                      categories := categories;
                      overall_uptime := overall_uptime;
                      history_data := history_data;
                      current_response_time := current_response_time |}).

Definition detail_of_past (c : config) (incident : incident) : detail_card :=
  let status_ids := get (StatusID incident) [] in
  {| detail_title := get (StatusTitle incident) "Unknown Incident";
     detail_type := status_of_ids status_ids;
     detail_description := get (StatusDescription incident) "";
     detail_by := get (By incident) "";
     detail_started_at := format_timestamp (StartedAt incident);
     detail_fixed_at := format_timestamp (FixedAt incident);
     detail_status_names := map (fun sid => get_status_by_id sid c) status_ids;
     detail_category_names :=
       map (fun cid => get_category_by_id cid c)
           (get (CategoryID incident) []) |}.

Definition detail_of_current (c : config) (status : incident) : detail_card :=
  let status_ids := get (StatusID status) [] in
  {| detail_title := get (StatusTitle status) "Ongoing Issue";
     detail_type := status_of_ids status_ids;
     detail_description := get (StatusDescription status) "";
     detail_by := get (By status) "";
     detail_started_at := format_timestamp (StartedAt status);
     detail_fixed_at := None;
     detail_status_names := map (fun sid => get_status_by_id sid c) status_ids;
     detail_category_names :=
       map (fun cid => get_category_by_id cid c)
           (get (CategoryID status) []) |}.

Definition incident_detail (f : config_file) (date : string)
  : outcome detail_page :=
  config ← load_config f;
  let incidents_for_date :=
    fold_left
      (fun incidents_for_date incident =>
         if truthy (StartedAt incident)
            && String.eqb
                 (strftime_Ymd
                    (fromtimestamp utcoffset (get (StartedAt incident) 0)))
                 date
         then incidents_for_date ++ [detail_of_past config incident]
         else incidents_for_date)
      (PastIncidents config) [] in
  let incidents_for_date :=
    fold_left
      (fun incidents_for_date status =>
         if truthy (StartedAt status) && negb (truthy (FixedAt status))
            && String.eqb
                 (strftime_Ymd
                    (fromtimestamp utcoffset (get (StartedAt status) 0)))
                 date
         then incidents_for_date ++ [detail_of_current config status]
         else incidents_for_date)
      (CurrentStatuses config) incidents_for_date in
  match incidents_for_date with
  | [] =>
      Return {| page_date := date; page_incidents := [];
                page_not_found := Some false |}
  | _ =>
      Return {| page_date := date; page_incidents := incidents_for_date;
                page_not_found := None |}
  end.

End Routes.

(** [api_status]: the configuration as loaded, handed to [jsonify]. *)
Definition api_status (f : config_file) : outcome config := load_config f.

(** * Vocabulary of the statements *)

(** The body of the resolver's loop. *)
Definition resolver_step (hp status_id : Z) : Z :=
  if Z_in status_id [4; 3; 5; 2; 6] && (status_id <? hp) then status_id else hp.

(** The probe result when a response with [status_code] arrived, and when
    the request raised [e]. *)
Definition on_response (o : observation) (status_code : Z) : probe_result :=
  let t := Some (round2 ((end_time o - start_time o) * 1000)) in
  if status_code =? 200 then {| status := "operational"; response_time := t |}
  else if Z_in status_code [500; 502; 503; 504]
       then {| status := "major"; response_time := t |}
       else {| status := "degraded"; response_time := t |}.

Definition on_failure (e : exn) : probe_result :=
  if is_Timeout e then {| status := "degraded"; response_time := Some 5000%Q |}
  else if is_ConnectionError e then {| status := "major"; response_time := None |}
  else {| status := "investigating"; response_time := None |}.

(** [r] is what the probe runner returns for [endpoint] in world [w]. *)
Definition probed (w : world) (endpoint : string * string) (r : probe_result)
  : Prop :=
  check_service_health endpoint.1 endpoint.2 (network w endpoint.1 endpoint.2)
  = Return r.

(** The response times a pass collects: those that are not none. *)
Definition collected (results : list probe_result) : list Q :=
  omap response_time results.

(** The globals after storing each result under its endpoint's name. *)
Definition store_results (l : list ((string * string) * probe_result))
    (g : globals) : globals :=
  fold_left (fun g '(endpoint, r) => set_service_status endpoint.1 r g) l g.

(** The globals a pass that got its endpoint table leaves behind. *)
Definition after_pass (w : world) (results : list probe_result) (g : globals)
  : globals :=
  let g1 := store_results (zip endpoints_table results) g in
  let times := collected results in
  let g2 :=
    match times with
    | [] => g1
    | _ =>
        append_response_time
          (round2 (Qsum times / inject_Z (Z.of_nat (length times)))) g1
    end in
  set_last_check_time (clock w) g2.

Definition endpoint_names : list string := endpoints_table.*1.

(** [sum(1 for status in service_status.values()
         if status['status'] == 'operational')] *)
Definition operational_count (g : globals) : Z :=
  Z.of_nat (length (List.filter is_operational (map_to_list (service_status g)).*2)).

(** The check that [month_day] is right on day [r] of a common or of a
    leap year, run over every day of both in [month_day_check_all]. *)
Definition month_day_check (leap : bool) (r : Z) : bool :=
  let '(m, d) := month_day r leap in
  (1 <=? m) && (m <=? 12) && (1 <=? d) && (d <=? 31)
  && (days_before_month (if leap then 4 else 1) m + d =? r + 1).

(** The record of the last day of a history: its date and status. *)
Definition last_day (h : outcome (list day_record)) : option (string * string) :=
  match h with
  | Return l => (fun r => (date r, day_status r)) <$> last l
  | Raise _ => None
  end.

(** One store into a module global: [service_status[name] = r],
    [response_times.append(x)] or [last_check_time = t]. *)
Inductive store : Type :=
  | StoreStatus (name : string) (r : probe_result)
  | StoreResponseTime (x : Q)
  | StoreLastCheck (t : Q).

Definition perform (g : globals) (a : store) : globals :=
  match a with
  | StoreStatus name r => set_service_status name r g
  | StoreResponseTime x => append_response_time x g
  | StoreLastCheck t => set_last_check_time t g
  end.

(** The stores of one pass, in program order. *)
Definition pass_stores (w : world) (results : list probe_result) : list store :=
  ((fun er : (string * string) * probe_result => StoreStatus er.1.1 er.2)
     <$> zip endpoints_table results)
  ++ match collected results with
     | [] => []
     | times =>
         [StoreResponseTime
            (round2 (Qsum times / inject_Z (Z.of_nat (length times))))]
     end
  ++ [StoreLastCheck (clock w)].

(** [interleave l1 l2 l]: [l] merges [l1] and [l2], keeping the order of
    each. *)
Inductive interleave {A : Type} : list A -> list A -> list A -> Prop :=
  | interleave_nil : interleave [] [] []
  | interleave_l x l1 l2 l :
      interleave l1 l2 l -> interleave (x :: l1) l2 (x :: l)
  | interleave_r x l1 l2 l :
      interleave l1 l2 l -> interleave l1 (x :: l2) (x :: l).

(** The seconds [monitor_loop] sleeps after a turn in world [w]. *)
Definition sleep_after (w : world) : Z :=
  match load_config (config_json w) with
  | Return _ => 30
  | Raise _ => 60
  end.

(** A configuration with its past incidents, or its current statuses,
    replaced. *)
Definition with_past (c : config) (l : list incident) : config :=
  {| ShowStatuses := ShowStatuses c;
     StatusCategories := StatusCategories c;
     StatusTypes := StatusTypes c;
     CurrentStatuses := CurrentStatuses c;
     PastIncidents := l |}.

Definition with_current (c : config) (l : list incident) : config :=
  {| ShowStatuses := ShowStatuses c;
     StatusCategories := StatusCategories c;
     StatusTypes := StatusTypes c;
     CurrentStatuses := l;
     PastIncidents := PastIncidents c |}.

(** Title, type, description and author: what a card of the detail page
    and a summary of the timeline have in common. *)
Definition detail_core (d : detail_card) : string * string * string * string :=
  (detail_title d, detail_type d, detail_description d, detail_by d).

Definition summary_core (s : incident_summary)
  : string * string * string * string :=
  (title s, type s, description s, by_ s).

(** [not status.get('FixedAt')] *)
Definition unresolved (i : incident) : bool := negb (truthy (FixedAt i)).

(** The test of the fallback loop: an open status that lists the
    category. *)
Definition names_category (category_id : Z) (i : incident) : bool :=
  unresolved i && Z_in category_id (get (CategoryID i) []).

(** * Sample inputs *)

(** A world in which the configuration file is missing, the first endpoint
    answers 200 after a quarter of a second, the second times out, and the
    others refuse the connection. *)
Definition sample_world : world := {|
  config_json := Missing;
  network := fun name _ =>
    if String.eqb name "API" then
      {| reply := Return 200; start_time := 10%Q; end_time := (41 # 4)%Q |}
    else if String.eqb name "Discord Bot" then
      {| reply := Raise ReadTimeout; start_time := 11%Q; end_time := 16%Q |}
    else
      {| reply := Raise ConnectionError; start_time := 17%Q; end_time := 17%Q |};
  clock := 18%Q
|}.

(** A log of two incidents started a minute apart on 2023-11-14 (UTC),
    one with status id 6 and one with status id 4, in both orders. *)
Definition incident_with (t : Z) (ids : list Z) : incident := {|
  StatusTitle := Some "Incident";
  StatusDescription := None;
  By := None;
  StartedAt := Some t;
  FixedAt := Some (t + 3600);
  StatusID := Some ids;
  CategoryID := None
|}.

Definition log_6_then_4 : config := {|
  ShowStatuses := true;
  StatusCategories := [];
  StatusTypes := [];
  CurrentStatuses := [];
  PastIncidents := [incident_with 1700000000 [6]; incident_with 1700000060 [4]]
|}.

Definition log_4_then_6 : config := {|
  ShowStatuses := true;
  StatusCategories := [];
  StatusTypes := [];
  CurrentStatuses := [];
  PastIncidents := [incident_with 1700000060 [4]; incident_with 1700000000 [6]]
|}.

(** The time zone UTC. *)
Definition utc (t : Z) : Z := 0.

Definition posix_of_utc (dt : datetime) : Z :=
  (toordinal dt - 719163) * 86400 + second_of_day dt.

Definition today_20231114 : datetime := fromtimestamp utc 1700003600.

(** A world where every endpoint answers 200 in a tenth of a second, and
    one where every connection is refused. *)
Definition world_up : world := {|
  config_json := Missing;
  network := fun _ _ =>
    {| reply := Return 200; start_time := 0%Q; end_time := (1 # 10)%Q |};
  clock := 5%Q
|}.

Definition world_down : world := {|
  config_json := Missing;
  network := fun _ _ =>
    {| reply := Raise ConnectionError; start_time := 40%Q; end_time := 40%Q |};
  clock := 50%Q
|}.

Definition result_up : probe_result :=
  {| status := "operational"; response_time := Some (10000 # 100)%Q |}.

Definition result_down : probe_result :=
  {| status := "major"; response_time := None |}.

Definition results_up : list probe_result :=
  [result_up; result_up; result_up; result_up].

Definition results_down : list probe_result :=
  [result_down; result_down; result_down; result_down].

(** The monitoring thread stores its first result, the request thread then
    runs a whole pass, and the monitoring thread finishes. *)
Definition mixed_schedule : list store :=
  [ StoreStatus "API" result_up;
    StoreStatus "API" result_down;
    StoreStatus "Discord Bot" result_down;
    StoreStatus "Database" result_down;
    StoreStatus "ROBLOX API" result_down;
    StoreLastCheck 50%Q;
    StoreStatus "Discord Bot" result_up;
    StoreStatus "Database" result_up;
    StoreStatus "ROBLOX API" result_up;
    StoreResponseTime (10000 # 100)%Q;
    StoreLastCheck 5%Q ].

(** A configuration with two categories, three status types, one open
    and one closed current status, and one past incident. *)
Definition sample_config : config := {|
  ShowStatuses := true;
  StatusCategories :=
    [ {| CategoryID_ := 1; CategoryName := "API" |};
      {| CategoryID_ := 2; CategoryName := "Website" |} ];
  StatusTypes :=
    [ {| StatusID_ := 1; Status := "Operational" |};
      {| StatusID_ := 2; Status := "Degraded Performance" |};
      {| StatusID_ := 4; Status := "Major Outage" |} ];
  CurrentStatuses :=
    [ {| StatusTitle := Some "Slow pages"; StatusDescription := None;
         By := Some "ops"; StartedAt := Some 1700000000; FixedAt := None;
         StatusID := Some [2]; CategoryID := Some [2] |};
      {| StatusTitle := Some "Login errors"; StatusDescription := None;
         By := Some "ops"; StartedAt := Some 1699990000;
         FixedAt := Some 1699999000;
         StatusID := Some [4]; CategoryID := Some [1] |} ];
  PastIncidents := [incident_with 1699000000 [4]]
|}.

(** An entry without a start time. *)
Definition undated_incident : incident := {|
  StatusTitle := Some "Draft";
  StatusDescription := None;
  By := None;
  StartedAt := None;
  FixedAt := None;
  StatusID := Some [4];
  CategoryID := None
|}.

(** A request at time 100 that finds [sample_config] and, for its pass,
    [sample_world]. *)
Definition sample_request : request := {|
  config_at_start := Holds sample_config;
  pass_world := sample_world;
  config_for_history := Holds sample_config;
  current_time := 100%Q;
  today := today_20231114
|}.

(** Globals whose window holds the samples 100 and 300.5. *)
Definition two_samples : globals := {|
  response_times := [(10000 # 100)%Q; (30050 # 100)%Q];
  service_status := ∅;
  last_check_time := 0%Q
|}.

(** * Properties *)

(** ** Configuration loader *)

Lemma load_config_cases (f : config_file) :
  load_config f =
  match f with
  | Missing => Return empty_config
  | Unreadable => Raise PermissionError
  | Malformed => Raise JSONDecodeError
  | Holds c => Return c
  end.
Proof. destruct f; reflexivity. Qed.

(** C7, as stated, fails: a configuration file with malformed contents
    makes [load_config] raise the parser's exception; no configuration is
    returned. *)
Lemma load_config_malformed_raises :
  load_config Malformed = Raise JSONDecodeError
  /\ load_config Malformed <> Return empty_config.
Proof. split; [reflexivity | discriminate]. Qed.

(** C7, amended: a missing file, and only a missing file, is replaced by
    the empty configuration; any other fault of opening or parsing the file
    is raised to the caller unchanged, and a file that parses is returned
    as parsed. *)
Theorem load_config_missing_only (f : config_file) :
  load_config Missing = Return empty_config
  /\ (forall e, open_and_parse f = Raise e ->
        load_config f =
        if is_FileNotFoundError e then Return empty_config else Raise e)
  /\ (forall c, open_and_parse f = Return c -> load_config f = Return c)
  /\ load_config Malformed = Raise JSONDecodeError.
Proof.
  repeat split.
  - intros e He. unfold load_config. rewrite He. reflexivity.
  - intros c Hc. unfold load_config. rewrite Hc. reflexivity.
Qed.

Lemma load_config_missing_only_witness :
  load_config Unreadable = Raise PermissionError
  /\ load_config (Holds empty_config) = Return empty_config.
Proof.
  destruct (load_config_missing_only Unreadable) as (_ & Hraise & _ & _).
  destruct (load_config_missing_only (Holds empty_config)) as (_ & _ & Hret & _).
  split.
  - exact (Hraise PermissionError eq_refl).
  - exact (Hret empty_config eq_refl).
Defined.

(** ** Severity resolver *)

Lemma py_min_le_init (xs : list Z) (x : Z) : py_min x xs <= x.
Proof.
  unfold py_min. revert x.
  induction xs as [|y ys IH]; intros x; simpl; [lia|].
  specialize (IH (Z.min x y)). lia.
Qed.

Lemma py_min_lower_bound (xs : list Z) (x : Z) :
  Forall (fun y => py_min x xs <= y) xs.
Proof.
  unfold py_min. revert x.
  induction xs as [|y ys IH]; intros x; simpl; constructor.
  - pose proof (py_min_le_init ys (Z.min x y)) as H. unfold py_min in H. lia.
  - apply IH.
Qed.

Lemma resolver_loop_fixed (l : list Z) (hp : Z) :
  Forall (fun y => hp <= y) l -> fold_left resolver_step l hp = hp.
Proof.
  induction 1 as [|y ys Hy _ IH]; simpl; [reflexivity|].
  unfold resolver_step at 2.
  assert ((y <? hp) = false) as -> by lia.
  rewrite andb_false_r. exact IH.
Qed.

(** The loop after [min] never moves the candidate: the resolver returns
    the table entry of the numerically smallest id. *)
Lemma get_status_color_min (x : Z) (xs : list Z) :
  get_status_color (x :: xs) = dict_get priority_map (py_min x xs) "operational".
Proof.
  unfold get_status_color. fold resolver_step.
  rewrite resolver_loop_fixed; [reflexivity|].
  constructor; [apply py_min_le_init | apply py_min_lower_bound].
Qed.

(** C1: the code does not follow the priority order its own comment
    states.  On every non-empty list it answers with the table entry of the
    numerically smallest id: on the ids 4, 1, 2 (and on 4, 1, and on 4, 3)
    that is not Major, which the ranking puts first; the empty list and the
    single id 6 come out as the ranking has them. *)
Theorem get_status_color_is_minimum_not_ranking (x : Z) (xs : list Z) :
  get_status_color (x :: xs)
  = dict_get priority_map (py_min x xs) "operational"
  /\ get_status_color [4; 1; 2] = "operational"
  /\ ranking_table [4; 1; 2] = "major-outage"
  /\ get_status_color [4; 1] = "operational"
  /\ ranking_table [4; 1] = "major-outage"
  /\ get_status_color [4; 3] = "partial-outage"
  /\ ranking_table [4; 3] = "major-outage"
  /\ get_status_color [] = "operational"
  /\ get_status_color [6] = "investigating".
Proof.
  split; [apply get_status_color_min|].
  rewrite !get_status_color_min.
  repeat split; reflexivity.
Qed.

(** ** Probe runner *)

Lemma check_service_health_returns (name url : string) (o : observation) :
  check_service_health name url o =
  Return (match reply o with
          | Return status_code => on_response o status_code
          | Raise e => on_failure e
          end).
Proof.
  unfold check_service_health, on_response, on_failure.
  destruct (reply o) as [code | e]; unfold mbind, outcome_bind, try_except.
  - destruct (code =? 200); [reflexivity|].
    destruct (Z_in code [500; 502; 503; 504]); reflexivity.
  - destruct (is_Timeout e); [reflexivity|].
    destruct (is_ConnectionError e); reflexivity.
Qed.

(** C3, as stated, fails: a 204 response, a 2xx code, is classified
    degraded and not operational. *)
Lemma probe_204_is_degraded :
  check_service_health "API" "https://royalguard-api.up.railway.app/"
    {| reply := Return 204; start_time := 0%Q; end_time := (1 # 10)%Q |}
  = Return {| status := "degraded"; response_time := Some (10000 # 100)%Q |}
  /\ check_service_health "API" "https://royalguard-api.up.railway.app/"
       {| reply := Return 204; start_time := 0%Q; end_time := (1 # 10)%Q |}
     <> Return {| status := "operational";
                  response_time := Some (10000 # 100)%Q |}.
Proof. split; [vm_compute; reflexivity | vm_compute; discriminate]. Qed.

(** C3, amended: when a response arrives, status code 200 alone yields
    operational; 500, 502, 503 and 504 yield major; every other code,
    the other 2xx codes included, yields degraded; and the response time
    is always the measured one, never none. *)
Theorem check_service_health_on_response
    (name url : string) (code : Z) (t0 t1 : Q) :
  let o := {| reply := Return code; start_time := t0; end_time := t1 |} in
  let measured := Some (round2 ((t1 - t0) * 1000)) in
  check_service_health name url o =
  Return {| status :=
              if decide (code = 200) then "operational"
              else if decide (code ∈ [500; 502; 503; 504]) then "major"
              else "degraded";
            response_time := measured |}.
Proof.
  intros o measured. subst o measured.
  rewrite check_service_health_returns. cbn [reply].
  unfold on_response. cbn [start_time end_time].
  destruct (decide (code = 200)) as [-> | Hne]; [reflexivity|].
  assert ((code =? 200) = false) as -> by lia.
  destruct (decide (code ∈ [500; 502; 503; 504])) as [Hin | Hnin].
  - assert (Z_in code [500; 502; 503; 504] = true) as ->; [|reflexivity].
    unfold Z_in. apply existsb_exists. exists code.
    split; [apply list_elem_of_In, Hin | lia].
  - assert (Z_in code [500; 502; 503; 504] = false) as ->; [|reflexivity].
    apply not_true_iff_false. intros H. apply Hnin.
    unfold Z_in in H. apply existsb_exists in H as (y & Hy & Heq).
    apply Z.eqb_eq in Heq. subst y. apply list_elem_of_In, Hy.
Qed.

(** C4: whatever exception the request raises, the probe runner returns a
    result and raises nothing: a timeout gives degraded with response time
    5000, a connection failure that is not a timeout gives major with no
    response time, and anything else gives investigating with no response
    time.  No observation at all makes the runner raise. *)
Theorem check_service_health_on_failure
    (name url : string) (e : exn) (t0 t1 : Q) :
  check_service_health name url
    {| reply := Raise e; start_time := t0; end_time := t1 |}
  = Return (if is_Timeout e
            then {| status := "degraded"; response_time := Some 5000%Q |}
            else if is_ConnectionError e
            then {| status := "major"; response_time := None |}
            else {| status := "investigating"; response_time := None |})
  /\ (forall o, exists r, check_service_health name url o = Return r).
Proof.
  split.
  - rewrite check_service_health_returns. reflexivity.
  - intros o. eexists. apply check_service_health_returns.
Qed.

(** ** Status aggregator *)

Lemma get_health_endpoints_cases (f : config_file) :
  get_health_endpoints f =
  match load_config f with
  | Return _ => Return endpoints_table
  | Raise e => Raise e
  end.
Proof. unfold get_health_endpoints. destruct (load_config f); reflexivity. Qed.

Lemma probe_endpoint_step (w : world) (endpoint : string * string)
    (total : Q) (count : Z) (g : globals) :
  exists r, probed w endpoint r
    /\ probe_endpoint w endpoint (total, count) g
       = (Return (fold_left Qplus (collected [r]) total,
                  count + Z.of_nat (length (collected [r]))),
          set_service_status endpoint.1 r g).
Proof.
  destruct endpoint as [name url].
  destruct (check_service_health_returns name url (network w name url)) as [].
  set (r := match reply (network w name url) with
            | Return code => on_response (network w name url) code
            | Raise e => on_failure e
            end).
  exists r. split; [apply check_service_health_returns|].
  unfold probe_endpoint, lift, modify, mbind, M_bind.
  rewrite check_service_health_returns. fold r.
  unfold collected. simpl.
  destruct (response_time r) as [t|]; simpl.
  - reflexivity.
  - rewrite Z.add_0_r. reflexivity.
Qed.

Lemma for_each_probe (w : world) (endpoints : list (string * string)) :
  forall (total : Q) (count : Z) (g : globals),
  exists results,
    Forall2 (probed w) endpoints results
    /\ for_each endpoints (probe_endpoint w) (total, count) g
       = (Return (fold_left Qplus (collected results) total,
                  count + Z.of_nat (length (collected results))),
          store_results (zip endpoints results) g).
Proof.
  induction endpoints as [|endpoint rest IH]; intros total count g.
  - exists []. split; [constructor|]. simpl. rewrite Z.add_0_r. reflexivity.
  - destruct (probe_endpoint_step w endpoint total count g) as (r & Hr & Hstep).
    destruct (IH (fold_left Qplus (collected [r]) total)
                 (count + Z.of_nat (length (collected [r])))
                 (set_service_status endpoint.1 r g))
      as (results & Hall & Hloop).
    exists (r :: results). split; [constructor; assumption|].
    cbn [for_each]. unfold mbind at 1, M_bind at 1.
    rewrite Hstep, Hloop. f_equal. f_equal.
    unfold collected. cbn [omap list_omap].
    destruct (response_time r) as [t|]; cbn [fold_left length].
    + apply (f_equal (pair _)). lia.
    + apply (f_equal (pair _)). lia.
Qed.

Lemma monitor_services_effect (w : world) (g : globals) :
  match load_config (config_json w) with
  | Raise e => monitor_services w g = (Raise e, g)
  | Return _ =>
      exists results,
        Forall2 (probed w) endpoints_table results
        /\ monitor_services w g = (Return tt, after_pass w results g)
  end.
Proof.
  unfold monitor_services, lift, mbind at 1, M_bind at 1.
  rewrite get_health_endpoints_cases.
  destruct (load_config (config_json w)) as [c | e]; [|reflexivity].
  destruct (for_each_probe w endpoints_table 0%Q 0 g) as (results & Hall & Hloop).
  exists results. split; [exact Hall|].
  unfold mbind at 1, M_bind at 1. rewrite Hloop.
  unfold after_pass, Qsum.
  destruct (collected results) as [|t times] eqn:Htimes.
  - reflexivity.
  - assert ((0 <? 0 + Z.of_nat (length (t :: times))) = true) as ->
      by (apply Z.ltb_lt; cbn [length]; lia).
    reflexivity.
Qed.

Lemma store_results_fields (l : list ((string * string) * probe_result))
    (g : globals) :
  response_times (store_results l g) = response_times g
  /\ last_check_time (store_results l g) = last_check_time g.
Proof.
  revert g. induction l as [|[endpoint r] l IH]; intros g; [split; reflexivity|].
  unfold store_results in *. cbn [fold_left].
  destruct (IH (set_service_status endpoint.1 r g)) as [-> ->].
  split; reflexivity.
Qed.

Lemma after_pass_response_times (w : world) (results : list probe_result)
    (g : globals) :
  response_times (after_pass w results g) =
  match collected results with
  | [] => response_times g
  | times =>
      deque_append (response_times g)
        (round2 (Qsum times / inject_Z (Z.of_nat (length times))))
  end.
Proof.
  unfold after_pass.
  destruct (collected results); cbn [set_last_check_time response_times
    append_response_time];
    rewrite (proj1 (store_results_fields _ _)); reflexivity.
Qed.



(** In that world the pass averages 250 and 5000 and skips the two
    endpoints without a time. *)
Example monitor_services_sample :
  response_times (snd (monitor_services sample_world initial_globals))
  = [(262500 # 100)%Q]
  /\ last_check_time (snd (monitor_services sample_world initial_globals))
     = 18%Q.
Proof. split; vm_compute; reflexivity. Qed.

(** ** Rolling window *)

Lemma deque_append_drop (d : list Q) (x : Q) :
  (length d <= maxlen)%nat ->
  deque_append d x = drop (length (d ++ [x]) - maxlen) (d ++ [x]).
Proof.
  intros Hd. unfold deque_append. rewrite length_app. cbn [length].
  destruct (maxlen <? length d + 1)%nat eqn:E.
  - apply Nat.ltb_lt in E.
    replace (length d + 1 - maxlen)%nat with 1%nat by lia.
    destruct (d ++ [x]); reflexivity.
  - apply Nat.ltb_ge in E.
    replace (length d + 1 - maxlen)%nat with 0%nat by lia. reflexivity.
Qed.

Lemma deque_append_length (d : list Q) (x : Q) :
  (length d <= maxlen)%nat -> (length (deque_append d x) <= maxlen)%nat.
Proof.
  intros Hd. rewrite deque_append_drop by exact Hd.
  rewrite length_drop, length_app. cbn [length]. unfold maxlen in *. lia.
Qed.

(** Appending a run of samples keeps the last [maxlen] of everything. *)
Lemma deque_appends_drop (xs : list Q) :
  forall d, (length d <= maxlen)%nat ->
  fold_left deque_append xs d = drop (length (d ++ xs) - maxlen) (d ++ xs).
Proof.
  induction xs as [|x xs IH]; intros d Hd.
  - cbn [fold_left]. rewrite app_nil_r.
    replace (length d - maxlen)%nat with 0%nat by lia. reflexivity.
  - cbn [fold_left]. rewrite IH by (apply deque_append_length, Hd).
    rewrite deque_append_drop by exact Hd.
    rewrite (cons_middle x d xs), app_assoc.
    set (l := d ++ [x]).
    assert (Hl : (length l <= maxlen + 1)%nat)
      by (subst l; rewrite length_app; cbn [length]; lia).
    clearbody l.
    rewrite !length_app, length_drop.
    destruct (decide (length l <= maxlen)%nat) as [Hle | Hgt].
    + replace (length l - maxlen)%nat with 0%nat by lia.
      rewrite drop_0. f_equal. lia.
    + replace (length l - maxlen)%nat with 1%nat by lia.
      rewrite <- drop_app_le by lia.
      rewrite drop_drop. f_equal. lia.
Qed.

Lemma run_passes_snoc (ws : list world) (w : world) (g : globals) :
  run_passes (ws ++ [w]) g = snd (monitor_services w (run_passes ws g)).
Proof. unfold run_passes. rewrite fold_left_app. reflexivity. Qed.

Lemma monitor_services_window (w : world) (g : globals) :
  (length (response_times g) <= maxlen)%nat ->
  (length (response_times (snd (monitor_services w g))) <= maxlen)%nat.
Proof.
  intros Hg. pose proof (monitor_services_effect w g) as Hpass.
  destruct (load_config (config_json w)) as [c | e].
  - destruct Hpass as (results & _ & ->). cbn [snd].
    rewrite after_pass_response_times.
    destruct (collected results); [exact Hg | apply deque_append_length, Hg].
  - rewrite Hpass. exact Hg.
Qed.

(** C6: after any run of aggregation passes the window holds at most 100
    samples, and it is a first-in first-out window of that capacity:
    appending 150 samples to the empty window leaves exactly the last 100
    of them, in the order they came, the first 50 having been dropped. *)
Theorem response_times_window (ws : list world) (samples : list Q) :
  length samples = 150%nat ->
  (length (response_times (run_passes ws initial_globals)) <= 100)%nat
  /\ fold_left deque_append samples [] = drop 50 samples
  /\ take 50 samples ++ fold_left deque_append samples [] = samples
  /\ length (fold_left deque_append samples []) = 100%nat.
Proof.
  intros Hlen.
  assert (Hfifo : fold_left deque_append samples [] = drop 50 samples).
  { rewrite deque_appends_drop by (cbn [length]; unfold maxlen; lia).
    cbn [app]. rewrite Hlen. reflexivity. }
  split; [|split; [|split]].
  - induction ws as [|w ws IH] using rev_ind.
    + cbn. lia.
    + rewrite run_passes_snoc. apply monitor_services_window, IH.
  - exact Hfifo.
  - rewrite Hfifo. apply take_drop.
  - rewrite Hfifo, length_drop, Hlen. reflexivity.
Qed.

Lemma response_times_window_witness :
  let samples := map inject_Z (seqZ 1 150) in
  (length (response_times
             (run_passes [sample_world; sample_world] initial_globals))
   <= 100)%nat
  /\ fold_left deque_append samples [] = drop 50 samples
  /\ take 50 samples ++ fold_left deque_append samples [] = samples
  /\ length (fold_left deque_append samples []) = 100%nat.
Proof.
  apply (response_times_window [sample_world; sample_world]
           (map inject_Z (seqZ 1 150))).
  vm_compute. reflexivity.
Defined.

(** ** Uptime *)

Lemma round_half_even_frac (a : Z) (b : positive) :
  round_half_even (a # b) =
  let f := a / Zpos b in
  match (2 * (a mod Zpos b) ?= Zpos b) with
  | Lt => f
  | Gt => f + 1
  | Eq => if Z.even f then f else f + 1
  end.
Proof.
  unfold round_half_even. cbn [Qfloor].
  set (f := a / Zpos b).
  assert (Hc : ((a # b) - inject_Z f ?= 1 # 2)%Q
               = (2 * (a mod Z.pos b) ?= Z.pos b)).
  { unfold Qcompare, Qminus, Qplus, Qopp, inject_Z. cbn [Qnum Qden].
    rewrite Z.mod_eq by lia. fold f.
    rewrite Pos2Z.inj_mul.
    destruct (Z.compare_spec (2 * (a - Z.pos b * f)) (Z.pos b)) as [H|H|H].
    - apply Z.compare_eq_iff. lia.
    - apply Z.compare_lt_iff. nia.
    - apply Z.compare_gt_iff. nia. }
  rewrite Hc. reflexivity.
Qed.

(** With fewer than 20000 services the rounded percentage reaches 100
    only when every service counts. *)
Lemma full_marks_iff (ops total : Z) :
  0 <= ops <= total -> 0 < total < 20000 ->
  round2 (inject_Z ops / inject_Z total * 100) = (10000 # 100)%Q
  <-> ops = total.
Proof.
  intros Hops Htotal.
  destruct total as [|p|p]; try lia.
  unfold round2.
  change (inject_Z ops / inject_Z (Zpos p) * 100 * 100)%Q
    with ((ops * 1 * 100 * 100) # (1 * p * 1 * 1)).
  rewrite round_half_even_frac.
  replace (ops * 1 * 100 * 100) with (10000 * ops) by lia.
  replace (Z.pos (1 * p * 1 * 1)) with (Z.pos p) by lia.
  cbv zeta.
  split.
  - intros H. injection H as H.
    destruct (Z.eq_dec ops (Z.pos p)) as [|Hne]; [assumption|exfalso].
    assert (Hlt : 2 * (10000 * ops) < 19999 * Z.pos p) by lia.
    revert H.
    destruct (Z.compare_spec (2 * ((10000 * ops) mod Z.pos p)) (Z.pos p))
      as [Hc|Hc|Hc];
      [destruct (Z.even _)| |]; intros H; Z.div_mod_to_equations; nia.
  - intros ->. rewrite Z.mul_comm, Z.mod_mul, Z.div_mul by lia.
    reflexivity.
Qed.

Lemma filter_all_length {A : Type} (f : A -> bool) (l : list A) :
  length (List.filter f l) = length l <-> forall x, In x l -> f x = true.
Proof.
  induction l as [|a l IH]; cbn [List.filter length].
  - split; [intros _ x [] | reflexivity].
  - pose proof (List.filter_length_le f l) as Hle.
    destruct (f a) eqn:Ea; cbn [length].
    + split.
      * intros H x [<- | Hx]; [exact Ea | apply IH; [lia | exact Hx]].
      * intros H. f_equal. apply IH. intros x Hx. apply H. right. exact Hx.
    + split; [lia|].
      intros H. specialize (H a (or_introl eq_refl)). congruence.
Qed.

Lemma store_results_known (l : list ((string * string) * probe_result))
    (g : globals) (name : string) :
  is_Some (service_status (store_results l g) !! name) ->
  is_Some (service_status g !! name) \/ name ∈ l.*1.*1.
Proof.
  revert g. induction l as [|[endpoint r] l IH]; intros g H; [left; exact H|].
  unfold store_results in *. cbn [fold_left] in H.
  apply IH in H as [H | H].
  - cbn [set_service_status service_status] in H.
    destruct (decide (endpoint.1 = name)) as [<- | Hne].
    + right. cbn. left.
    + rewrite lookup_insert_ne in H by exact Hne. left. exact H.
  - right. cbn. right. exact H.
Qed.

Lemma monitor_services_known (w : world) (g : globals) (name : string) :
  is_Some (service_status (snd (monitor_services w g)) !! name) ->
  is_Some (service_status g !! name) \/ name ∈ endpoint_names.
Proof.
  intros H. pose proof (monitor_services_effect w g) as Hpass.
  destruct (load_config (config_json w)) as [c | e].
  - destruct Hpass as (results & _ & Hrun). rewrite Hrun in H. cbn [snd] in H.
    assert (Hst : service_status (after_pass w results g)
                  = service_status
                      (store_results (zip endpoints_table results) g))
      by (unfold after_pass; destruct (collected results); reflexivity).
    rewrite Hst in H. apply store_results_known in H as [H | H]; [left; exact H|].
    right. unfold endpoint_names.
    apply list_elem_of_fmap in H as (e1 & -> & He1).
    apply list_elem_of_fmap in He1 as ([e2 r] & -> & He2).
    apply elem_of_zip_l in He2. apply list_elem_of_fmap. exists e2. split; [reflexivity | exact He2].
  - rewrite Hpass in H. left. exact H.
Qed.

Lemma run_passes_known (ws : list world) (name : string) :
  is_Some (service_status (run_passes ws initial_globals) !! name) ->
  name ∈ endpoint_names.
Proof.
  induction ws as [|w ws IH] using rev_ind; intros H.
  - cbn in H. rewrite lookup_empty in H. destruct H as [? H]. discriminate.
  - rewrite run_passes_snoc in H.
    apply monitor_services_known in H as [H | H]; [apply IH, H | exact H].
Qed.

Lemma run_passes_size (ws : list world) :
  (size (service_status (run_passes ws initial_globals)) <= 4)%nat.
Proof.
  rewrite <- size_dom.
  transitivity (size (list_to_set endpoint_names : gset string)).
  - apply subseteq_size. intros name Hname.
    apply elem_of_dom in Hname. apply elem_of_list_to_set.
    apply (run_passes_known ws), Hname.
  - rewrite size_list_to_set; [reflexivity|].
    unfold endpoint_names, endpoints_table. cbn [fmap list_fmap fst].
    repeat (apply NoDup_cons; split; [rewrite ?not_elem_of_cons; repeat split;
                                       try discriminate; apply not_elem_of_nil|]).
    apply NoDup_nil_2.
Qed.

Lemma operational_count_full (g : globals) :
  operational_count g = Z.of_nat (size (service_status g))
  <-> forall name r,
        service_status g !! name = Some r -> status r = "operational".
Proof.
  unfold operational_count.
  rewrite <- length_map_to_list, <- (length_fmap snd (map_to_list _)).
  rewrite Nat2Z.inj_iff, filter_all_length.
  split.
  - intros H name r Hr. apply String.eqb_eq. apply (H r).
    apply list_elem_of_In, list_elem_of_fmap. exists (name, r).
    split; [reflexivity | apply elem_of_map_to_list, Hr].
  - intros H r Hr. apply list_elem_of_In, list_elem_of_fmap in Hr as ([name r'] & -> & Hr).
    apply elem_of_map_to_list in Hr. apply String.eqb_eq. apply (H name), Hr.
Qed.

Lemma calculate_uptime_nonempty (g : globals) :
  service_status g <> ∅ ->
  calculate_uptime g
  = round2 (inject_Z (operational_count g)
            / inject_Z (Z.of_nat (size (service_status g))) * 100).
Proof.
  intros Hne. unfold calculate_uptime.
  destruct (decide (service_status g = ∅)) as [He | _]; [contradiction|].
  apply map_size_non_empty_iff in Hne.
  assert ((Z.of_nat (size (service_status g)) =? 0) = false) as -> by lia.
  reflexivity.
Qed.

(** C10: with no service status recorded the uptime is the fixed 99.98;
    once statuses are recorded it is the share of operational services, as
    a percentage rounded to two decimals; and after any run of passes that
    figure is 100 exactly when every recorded service is operational. *)
Theorem calculate_uptime_spec (ws : list world) (g : globals) :
  (service_status g = ∅ -> calculate_uptime g = (9998 # 100)%Q)
  /\ (service_status g <> ∅ ->
      calculate_uptime g
      = round2 (inject_Z (operational_count g)
                / inject_Z (Z.of_nat (size (service_status g))) * 100))
  /\ (let g' := run_passes ws initial_globals in
      service_status g' <> ∅ ->
      (calculate_uptime g' = (10000 # 100)%Q
       <-> forall name r,
             service_status g' !! name = Some r -> status r = "operational")).
Proof.
  split; [|split].
  - intros He. unfold calculate_uptime.
    destruct (decide (service_status g = ∅)); [reflexivity | contradiction].
  - apply calculate_uptime_nonempty.
  - intros g' Hne. rewrite calculate_uptime_nonempty by exact Hne.
    rewrite <- operational_count_full.
    pose proof (run_passes_size ws) as Hsize. fold g' in Hsize.
    apply map_size_non_empty_iff in Hne.
    apply full_marks_iff; [|lia].
    unfold operational_count.
    pose proof (List.filter_length_le is_operational
                  (map_to_list (service_status g')).*2) as Hle.
    rewrite length_fmap, length_map_to_list in Hle. lia.
Qed.

(** ** Calendar *)

Lemma month_day_check_all :
  forallb (month_day_check false) (seqZ 0 365) = true
  /\ forallb (month_day_check true) (seqZ 0 366) = true.
Proof. split; vm_compute; reflexivity. Qed.

Lemma is_leap_iff (y : Z) :
  is_leap y = true
  <-> y mod 4 = 0 /\ (y mod 100 <> 0 \/ y mod 400 = 0).
Proof.
  unfold is_leap.
  rewrite andb_true_iff, orb_true_iff, negb_true_iff, !Z.eqb_eq, Z.eqb_neq.
  tauto.
Qed.

(** Within a year, [month_day] inverts "days before the month, plus the
    day of the month". *)
Lemma month_day_ok (y r : Z) :
  0 <= r < 365 + (if is_leap y then 1 else 0) ->
  let '(m, d) := month_day r (is_leap y) in
  1 <= m <= 12 /\ 1 <= d <= 31 /\ days_before_month y m + d = r + 1.
Proof.
  intros Hr.
  destruct month_day_check_all as [Hcommon Hleap].
  rewrite forallb_forall in Hcommon, Hleap.
  assert (Hdbm : forall m, days_before_month y m
                           = days_before_month (if is_leap y then 4 else 1) m).
  { intros m. unfold days_before_month. destruct (is_leap y); reflexivity. }
  destruct (is_leap y) eqn:E.
  - specialize (Hleap r). unfold month_day_check in Hleap.
    destruct (month_day r true) as [m d]. rewrite Hdbm.
    assert (In r (seqZ 0 366)) as Hin
      by (apply list_elem_of_In, elem_of_seqZ; lia).
    apply Hleap in Hin. rewrite !andb_true_iff in Hin. lia.
  - specialize (Hcommon r). unfold month_day_check in Hcommon.
    destruct (month_day r false) as [m d]. rewrite Hdbm.
    assert (In r (seqZ 0 365)) as Hin
      by (apply list_elem_of_In, elem_of_seqZ; lia).
    apply Hcommon in Hin. rewrite !andb_true_iff in Hin. lia.
Qed.

Lemma days_before_year_cycles (q c k j : Z) :
  0 <= c <= 3 -> 0 <= k <= 24 -> 0 <= j <= 3 ->
  days_before_year (400 * q + 100 * c + 4 * k + j + 1)
  = 146097 * q + 36524 * c + 1461 * k + 365 * j.
Proof.
  intros Hc Hk Hj. unfold days_before_year.
  replace (400 * q + 100 * c + 4 * k + j + 1 - 1)
    with (400 * q + 100 * c + 4 * k + j) by lia.
  Z.div_mod_to_equations. lia.
Qed.

Lemma is_leap_cycles (q c k j : Z) :
  0 <= c <= 3 -> 0 <= k <= 24 -> 0 <= j <= 3 ->
  is_leap (400 * q + 100 * c + 4 * k + j + 1)
  = (j =? 3) && (negb (k =? 24) || (c =? 3)).
Proof.
  intros Hc Hk Hj. apply eq_true_iff_eq.
  rewrite is_leap_iff, andb_true_iff, orb_true_iff, negb_true_iff,
    !Z.eqb_eq, Z.eqb_neq.
  Z.div_mod_to_equations. lia.
Qed.

(** [ymd2ord] undoes [ord2ymd], and the month and day are in range. *)
Lemma ord2ymd_spec (n : Z) :
  let '(y, m, d) := ord2ymd n in
  ymd2ord y m d = n /\ 1 <= m <= 12 /\ 1 <= d <= 31.
Proof.
  unfold ord2ymd, DI400Y, DI100Y, DI4Y.
  set (n0 := n - 1).
  set (n400 := n0 / 146097). set (r400 := n0 mod 146097).
  set (n100 := r400 / 36524). set (r100 := r400 mod 36524).
  set (n4 := r100 / 1461). set (r4 := r100 mod 1461).
  set (n1 := r4 / 365). set (r1 := r4 mod 365).
  set (y := n400 * 400 + 1 + (n100 * 100 + n4 * 4 + n1)).
  assert (H400 : n0 = 146097 * n400 + r400 /\ 0 <= r400 < 146097)
    by (subst n400 r400; split;
        [apply Z.div_mod; lia | apply Z.mod_pos_bound; lia]).
  assert (H100 : r400 = 36524 * n100 + r100 /\ 0 <= r100 < 36524)
    by (subst n100 r100; split;
        [apply Z.div_mod; lia | apply Z.mod_pos_bound; lia]).
  assert (H4 : r100 = 1461 * n4 + r4 /\ 0 <= r4 < 1461)
    by (subst n4 r4; split;
        [apply Z.div_mod; lia | apply Z.mod_pos_bound; lia]).
  assert (H1 : r4 = 365 * n1 + r1 /\ 0 <= r1 < 365)
    by (subst n1 r1; split;
        [apply Z.div_mod; lia | apply Z.mod_pos_bound; lia]).
  clearbody n400 r400 n100 r100 n4 r4 n1 r1.
  assert (Hn100 : 0 <= n100 <= 4) by lia.
  assert (Hn4 : 0 <= n4 <= 24) by lia.
  assert (Hn1 : 0 <= n1 <= 4) by lia.
  destruct ((n1 =? 4) || (n100 =? 4)) eqn:Hsp.
  - (* the last day of a 4-year or of a 400-year cycle *)
    apply orb_true_iff in Hsp. rewrite !Z.eqb_eq in Hsp.
    split; [|lia].
    assert (Hy : exists c k, 0 <= c <= 3 /\ 0 <= k <= 24
                   /\ y - 1 = 400 * n400 + 100 * c + 4 * k + 3 + 1
                   /\ n0 = 146097 * n400 + 36524 * c + 1461 * k + 1460
                   /\ (k <> 24 \/ c = 3)).
    { destruct Hsp as [-> | ->].
      - exists n100, n4. lia.
      - exists 3, 24. lia. }
    destruct Hy as (c & k & Hc & Hk & -> & Hn0 & Hck).
    unfold ymd2ord, days_before_month.
    rewrite days_before_year_cycles, is_leap_cycles by lia.
    change (table DAYS_BEFORE_MONTH 12) with 334.
    change (2 <? 12) with true. change (3 =? 3) with true. cbn [andb].
    assert (negb (k =? 24) || (c =? 3) = true) as ->; [|lia].
    rewrite orb_true_iff, negb_true_iff, Z.eqb_neq, Z.eqb_eq. exact Hck.
  - apply orb_false_iff in Hsp. rewrite !Z.eqb_neq in Hsp.
    assert (Hy : y = 400 * n400 + 100 * n100 + 4 * n4 + n1 + 1) by lia.
    clearbody y. subst y.
    rewrite <- (is_leap_cycles n400) by lia.
    set (y := 400 * n400 + 100 * n100 + 4 * n4 + n1 + 1).
    assert (Hr : 0 <= r1 < 365 + (if is_leap y then 1 else 0))
      by (destruct (is_leap y); lia).
    pose proof (month_day_ok y r1 Hr) as Hmd.
    destruct (month_day r1 (is_leap y)) as [m d].
    destruct Hmd as (Hm & Hd & Hsum).
    split; [|lia].
    unfold ymd2ord. rewrite <- Z.add_assoc, Hsum.
    subst y. rewrite days_before_year_cycles by lia. lia.
Qed.

Lemma digit_inj (a b : Z) :
  0 <= a < 10 -> 0 <= b < 10 -> digit a = digit b -> a = b.
Proof.
  intros Ha Hb H. unfold digit in H.
  apply (f_equal nat_of_ascii) in H.
  rewrite !nat_ascii_embedding in H by lia. lia.
Qed.

Lemma two_digits_inj (a b : Z) :
  0 <= a < 100 -> 0 <= b < 100 -> two_digits a = two_digits b -> a = b.
Proof.
  intros Ha Hb H. unfold two_digits in H. injection H as Hhi Hlo.
  apply digit_inj in Hhi; [|Z.div_mod_to_equations; lia..].
  apply digit_inj in Hlo; [|Z.div_mod_to_equations; lia..].
  Z.div_mod_to_equations. lia.
Qed.

Lemma string_length_app (s t : string) :
  String.length (s +:+ t) = (String.length s + String.length t)%nat.
Proof.
  induction s as [|a s IH]; [reflexivity|].
  change (S (String.length (s +:+ t)) = S (String.length s + String.length t)).
  f_equal. exact IH.
Qed.

Lemma string_app_inj_suffix (s1 s2 t1 t2 : string) :
  String.length t1 = String.length t2 ->
  s1 +:+ t1 = s2 +:+ t2 -> s1 = s2 /\ t1 = t2.
Proof.
  intros Hlen. revert s2.
  induction s1 as [|a s1 IH]; intros [|b s2] H.
  - split; [reflexivity | exact H].
  - apply (f_equal String.length) in H.
    change (String.length t1 = S (String.length (s2 +:+ t2))) in H.
    rewrite string_length_app in H. lia.
  - apply (f_equal String.length) in H.
    change (S (String.length (s1 +:+ t1)) = String.length t2) in H.
    rewrite string_length_app in H. lia.
  - change (String a (s1 +:+ t1) = String b (s2 +:+ t2)) in H.
    injection H as -> H. apply IH in H as [-> ->]. split; reflexivity.
Qed.

(** Two dates print alike only when they are the same day. *)
Lemma strftime_Ymd_inj (a b : datetime) :
  strftime_Ymd a = strftime_Ymd b -> toordinal a = toordinal b.
Proof.
  unfold strftime_Ymd. intros H.
  pose proof (ord2ymd_spec (toordinal a)) as Ha.
  pose proof (ord2ymd_spec (toordinal b)) as Hb.
  destruct (ord2ymd (toordinal a)) as [[ya ma] da].
  destruct (ord2ymd (toordinal b)) as [[yb mb] db].
  apply string_app_inj_suffix in H as [Hy H]; [|reflexivity].
  apply (inj pretty) in Hy.
  injection H as Hm1 Hm2 Hd1 Hd2.
  assert (Hm : ma = mb)
    by (apply two_digits_inj; [lia | lia | unfold two_digits; congruence]).
  assert (Hd : da = db)
    by (apply two_digits_inj; [lia | lia | unfold two_digits; congruence]).
  subst. lia.
Qed.

(** The calendar on days whose dates are known: the first and the last
    day [datetime] can hold, the epoch, a leap day and the turn of a
    century that is not a leap year. *)
Example calendar_known_days :
  ord2ymd 1 = (1, 1, 1)
  /\ ord2ymd 3652059 = (9999, 12, 31)
  /\ ord2ymd 719163 = (1970, 1, 1)
  /\ strftime_Ymd (fromtimestamp utc 951782400) = "2000-02-29"
  /\ strftime_Ymd (fromtimestamp utc (-2203891200)) = "1900-03-01"
  /\ strftime_Ymd (fromtimestamp utc 1700000000) = "2023-11-14"
  /\ strftime_Ymd (minus_days (fromtimestamp utc 1700000000) 89)
     = "2023-08-17".
Proof. repeat split; vm_compute; reflexivity. Qed.

(** ** Incident timeline *)

Lemma index_entry_lookup (d st : string) (s : incident_summary)
    (m : gmap string day_data) (k : string) :
  index_entry d st s m !! k =
  if decide (d = k) then
    Some match m !! d with
         | None => {| data_status := st; data_incidents := [s] |}
         | Some dd => {| data_status := data_status dd;
                         data_incidents := data_incidents dd ++ [s] |}
         end
  else m !! k.
Proof.
  unfold index_entry.
  destruct (decide (d = k)) as [<- | Hne].
  - rewrite lookup_alter_eq.
    destruct (m !! d) as [dd|] eqn:E.
    + rewrite E. reflexivity.
    + rewrite lookup_insert_eq. reflexivity.
  - rewrite lookup_alter_ne by exact Hne.
    destruct (m !! d); [reflexivity|].
    rewrite lookup_insert_ne by exact Hne. reflexivity.
Qed.

(** What a run of filings leaves under one date: the status of the first
    entry ever filed there, and every entry's summary in filing order. *)
Lemma file_entries_lookup (es : list entry) :
  forall (m : gmap string day_data) (k : string),
  fold_left file_entry es m !! k =
  match m !! k with
  | Some dd =>
      Some {| data_status := data_status dd;
              data_incidents :=
                data_incidents dd ++ (entry_summary <$> on_date k es) |}
  | None =>
      match on_date k es with
      | [] => None
      | e :: rest =>
          Some {| data_status := status_of_ids (entry_ids e);
                  data_incidents := entry_summary <$> (e :: rest) |}
      end
  end.
Proof.
  induction es as [|e es IH]; intros m k.
  - cbn. destruct (m !! k) as [[st l]|]; [|reflexivity].
    cbn. rewrite app_nil_r. reflexivity.
  - cbn [fold_left]. rewrite IH. unfold on_date.
    unfold file_entry at 1. rewrite index_entry_lookup.
    destruct (decide (entry_date e = k)) as [Hk | Hk].
    + rewrite filter_cons_True by exact Hk. subst k.
      destruct (m !! entry_date e) as [dd|]; cbn.
      * rewrite <- app_assoc. reflexivity.
      * reflexivity.
    + rewrite filter_cons_False by exact Hk. reflexivity.
Qed.

Section TimelineProperties.

Variable utcoffset : Z -> Z.
Variable posix_of_local : datetime -> Z.

Lemma index_past_entries (l : list incident) :
  forall m, fold_left (index_past utcoffset) l m
            = fold_left file_entry (omap (past_entry utcoffset) l) m.
Proof.
  induction l as [|i l IH]; intros m; [reflexivity|].
  cbn [fold_left omap list_omap]. rewrite IH.
  unfold index_past, past_entry.
  destruct (truthy (StartedAt i)); reflexivity.
Qed.

Lemma index_current_entries (l : list incident) :
  forall m, fold_left (index_current utcoffset) l m
            = fold_left file_entry (omap (current_entry utcoffset) l) m.
Proof.
  induction l as [|i l IH]; intros m; [reflexivity|].
  cbn [fold_left omap list_omap]. rewrite IH.
  unfold index_current, current_entry.
  destruct (negb (truthy (FixedAt i)) && truthy (StartedAt i)); reflexivity.
Qed.

Lemma build_incident_map_lookup (c : config) (k : string) :
  build_incident_map utcoffset c !! k =
  match on_date k (indexed_entries utcoffset c) with
  | [] => None
  | e :: rest =>
      Some {| data_status := status_of_ids (entry_ids e);
              data_incidents := entry_summary <$> (e :: rest) |}
  end.
Proof.
  unfold build_incident_map, indexed_entries.
  rewrite index_past_entries, index_current_entries, <- fold_left_app.
  rewrite file_entries_lookup, lookup_empty. reflexivity.
Qed.

Lemma generate_90_day_history_returns (f : config_file) (c : config)
    (today : datetime) :
  load_config f = Return c ->
  generate_90_day_history utcoffset posix_of_local f today
  = Return (history_of utcoffset posix_of_local c today).
Proof. intros H. unfold generate_90_day_history. rewrite H. reflexivity. Qed.

Lemma history_entry_date (m : gmap string day_data) (today : datetime)
    (i : Z) :
  date (history_entry posix_of_local m today i)
  = strftime_Ymd (minus_days today i).
Proof.
  unfold history_entry.
  destruct (m !! strftime_Ymd (minus_days today i)); reflexivity.
Qed.

Lemma history_of_lookup (c : config) (today : datetime) (k : nat) :
  (k < 90)%nat ->
  history_of utcoffset posix_of_local c today !! k
  = Some (history_entry posix_of_local (build_incident_map utcoffset c) today
            (89 - Z.of_nat k)).
Proof.
  intros Hk. unfold history_of.
  rewrite reverse_lookup; rewrite length_map, length_seqZ; [|lia].
  rewrite list_lookup_fmap.
  rewrite lookup_seqZ_lt by lia.
  cbn [fmap option_fmap option_map]. f_equal. f_equal. lia.
Qed.

Lemma history_of_elem (c : config) (today : datetime) (r : day_record) :
  r ∈ history_of utcoffset posix_of_local c today ->
  exists i, 0 <= i < 90
    /\ r = history_entry posix_of_local (build_incident_map utcoffset c)
             today i.
Proof.
  unfold history_of. rewrite elem_of_reverse.
  intros H. apply list_elem_of_fmap in H as (i & -> & Hi).
  apply elem_of_seqZ in Hi. exists i. split; [lia | reflexivity].
Qed.

(** What the builder puts in the record of one day, read off the log. *)
Lemma history_entry_cases (c : config) (today : datetime) (i : Z) :
  let r := history_entry posix_of_local (build_incident_map utcoffset c)
             today i in
  match on_date (date r) (indexed_entries utcoffset c) with
  | [] => day_status r = "operational" /\ incidents r = []
  | e :: rest =>
      day_status r = status_of_ids (entry_ids e)
      /\ incidents r = entry_summary <$> (e :: rest)
  end.
Proof.
  intros r. subst r. rewrite history_entry_date.
  unfold history_entry. rewrite build_incident_map_lookup.
  destruct (on_date _ _) as [|e rest]; split; reflexivity.
Qed.



End TimelineProperties.




Lemma sample_pass_not_empty :
  service_status (run_passes [sample_world] initial_globals) <> ∅.
Proof.
  intros Hempty.
  assert (H : service_status (run_passes [sample_world] initial_globals)
              !! "API" = None) by (rewrite Hempty; apply lookup_empty).
  vm_compute in H. discriminate H.
Qed.

Lemma calculate_uptime_spec_witness :
  calculate_uptime initial_globals = (9998 # 100)%Q
  /\ calculate_uptime (run_passes [sample_world] initial_globals)
     = round2 (inject_Z (operational_count
                           (run_passes [sample_world] initial_globals))
               / inject_Z (Z.of_nat
                             (size (service_status
                                      (run_passes [sample_world]
                                         initial_globals)))) * 100)
  /\ (calculate_uptime (run_passes [sample_world] initial_globals)
      = (10000 # 100)%Q
      <-> forall name r,
            service_status (run_passes [sample_world] initial_globals)
              !! name = Some r ->
            status r = "operational").
Proof.
  destruct (calculate_uptime_spec [sample_world] initial_globals)
    as (Hfallback & _ & Hfull).
  destruct (calculate_uptime_spec []
              (run_passes [sample_world] initial_globals))
    as (_ & Hshare & _).
  split; [apply Hfallback; reflexivity|].
  split; [apply Hshare, sample_pass_not_empty|].
  apply Hfull, sample_pass_not_empty.
Defined.

(** After the sample pass one service of four is operational. *)
Example calculate_uptime_sample :
  calculate_uptime (run_passes [sample_world] initial_globals) = (2500 # 100)%Q.
Proof. vm_compute. reflexivity. Qed.

(** ** Passes on two threads

    [monitor_services] takes no lock, and [index] calls it on the request
    thread while [monitor_loop] calls it on the monitoring thread.  Each
    store into a global is one step; the steps of two passes can come in
    any interleaving that keeps each pass's own order. *)

Lemma store_results_stores (l : list ((string * string) * probe_result))
    (g : globals) :
  fold_left perform
    ((fun er : (string * string) * probe_result => StoreStatus er.1.1 er.2)
       <$> l) g
  = store_results l g.
Proof.
  revert g. induction l as [|[endpoint r] l IH]; intros g; [reflexivity|].
  cbn [fmap list_fmap fold_left]. rewrite IH. reflexivity.
Qed.

(** Run on their own, the stores of a pass are the pass. *)
Lemma pass_stores_after_pass (w : world) (results : list probe_result)
    (g : globals) :
  fold_left perform (pass_stores w results) g = after_pass w results g.
Proof.
  unfold pass_stores, after_pass.
  rewrite !fold_left_app, store_results_stores.
  destruct (collected results); reflexivity.
Qed.

Lemma interleave_elem {A : Type} (l1 l2 l : list A) (x : A) :
  interleave l1 l2 l -> x ∈ l <-> x ∈ l1 \/ x ∈ l2.
Proof.
  induction 1 as [|y l1 l2 l _ IH|y l1 l2 l _ IH].
  - rewrite !elem_of_nil. tauto.
  - rewrite !elem_of_cons, IH. tauto.
  - rewrite !elem_of_cons, IH. tauto.
Qed.

Lemma interleave_last {A : Type} (l1 l2 l : list A) (x : A) :
  interleave l1 l2 l -> last l = Some x ->
  last l1 = Some x \/ last l2 = Some x.
Proof.
  induction 1 as [|y l1 l2 l H IH|y l1 l2 l H IH]; intros Hlast.
  - discriminate.
  - rewrite last_cons in Hlast. rewrite last_cons.
    destruct (last l) as [z|] eqn:E.
    + destruct (IH Hlast) as [-> | H2]; [left; reflexivity | right; exact H2].
    + apply last_None in E. subst l. inversion H; subst. left. exact Hlast.
  - rewrite last_cons in Hlast. rewrite last_cons.
    destruct (last l) as [z|] eqn:E.
    + destruct (IH Hlast) as [H1 | ->]; [left; exact H1 | right; reflexivity].
    + apply last_None in E. subst l. inversion H; subst. right. exact Hlast.
Qed.

(** After a run of stores, a name some store wrote holds what one of the
    stores to that name wrote. *)
Lemma perform_status_written (l : list store) (g : globals) (name : string)
    (r0 : probe_result) :
  StoreStatus name r0 ∈ l ->
  exists r, StoreStatus name r ∈ l
    /\ service_status (fold_left perform l g) !! name = Some r.
Proof.
  induction l as [|a l IH] using rev_ind; intros Hin.
  - apply elem_of_nil in Hin. contradiction.
  - rewrite fold_left_app. cbn [fold_left].
    destruct a as [name' r' | x | t].
    + destruct (decide (name' = name)) as [-> | Hne].
      * exists r'. split; [apply elem_of_app; right; apply list_elem_of_singleton; reflexivity|].
        cbn [perform set_service_status service_status].
        apply lookup_insert_eq.
      * apply elem_of_app in Hin as [Hin | Hin].
        -- destruct (IH Hin) as (r & Hr & Hlook).
           exists r. split; [apply elem_of_app; left; exact Hr|].
           cbn [perform set_service_status service_status].
           rewrite lookup_insert_ne by exact Hne. exact Hlook.
        -- apply list_elem_of_singleton in Hin. congruence.
    + apply elem_of_app in Hin as [Hin | Hin];
        [|apply list_elem_of_singleton in Hin; discriminate].
      destruct (IH Hin) as (r & Hr & Hlook).
      exists r. split; [apply elem_of_app; left; exact Hr | exact Hlook].
    + apply elem_of_app in Hin as [Hin | Hin];
        [|apply list_elem_of_singleton in Hin; discriminate].
      destruct (IH Hin) as (r & Hr & Hlook).
      exists r. split; [apply elem_of_app; left; exact Hr | exact Hlook].
Qed.

Lemma Forall2_zip_elem {A B : Type} (P : A -> B -> Prop) (l : list A)
    (k : list B) (x : A) (y : B) :
  Forall2 P l k -> (x, y) ∈ zip l k -> P x y.
Proof.
  induction 1 as [|a b l k Hab _ IH]; cbn [zip zip_with]; intros Hin.
  - apply elem_of_nil in Hin. contradiction.
  - apply elem_of_cons in Hin as [Heq | Hin]; [congruence | exact (IH Hin)].
Qed.

Lemma Forall2_zip_cover {A B : Type} (P : A -> B -> Prop) (l : list A)
    (k : list B) (x : A) :
  Forall2 P l k -> x ∈ l -> exists y, (x, y) ∈ zip l k.
Proof.
  induction 1 as [|a b l k Hab _ IH]; cbn [zip zip_with]; intros Hin.
  - apply elem_of_nil in Hin. contradiction.
  - apply elem_of_cons in Hin as [-> | Hin].
    + exists b. left.
    + destruct (IH Hin) as (y & Hy). exists y. right. exact Hy.
Qed.

Lemma endpoint_by_name (name url url' : string) :
  (name, url) ∈ endpoints_table -> (name, url') ∈ endpoints_table ->
  url = url'.
Proof.
  unfold endpoints_table. rewrite !elem_of_cons, !elem_of_nil.
  intros H H'.
  repeat match goal with
         | H : _ \/ _ |- _ => destruct H as [H | H]
         | H : False |- _ => contradiction
         end;
    congruence.
Qed.

Lemma pass_stores_status (w : world) (results : list probe_result)
    (name : string) (r : probe_result) :
  StoreStatus name r ∈ pass_stores w results <->
  exists url, ((name, url), r) ∈ zip endpoints_table results.
Proof.
  unfold pass_stores. rewrite !elem_of_app, list_elem_of_fmap.
  split.
  - intros [([[name' url] r'] & Heq & Hin) | [Hin | Hin]].
    + cbn in Heq. injection Heq as -> ->. exists url. exact Hin.
    + destruct (collected results); [apply elem_of_nil in Hin; contradiction|].
      apply list_elem_of_singleton in Hin. discriminate.
    + apply list_elem_of_singleton in Hin. discriminate.
  - intros (url & Hin). left. exists ((name, url), r). split; [reflexivity | exact Hin].
Qed.

Lemma perform_last_check (l : list store) (t : Q) (g : globals) :
  last l = Some (StoreLastCheck t) ->
  last_check_time (fold_left perform l g) = t.
Proof.
  destruct l as [|a l] using rev_ind; [discriminate|].
  rewrite last_snoc, fold_left_app. intros [= ->]. reflexivity.
Qed.

Lemma pass_stores_last (w : world) (results : list probe_result) :
  last (pass_stores w results) = Some (StoreLastCheck (clock w)).
Proof. unfold pass_stores. rewrite !app_assoc. apply last_snoc. Qed.

(** C9, amended: the program has no mutual exclusion between a pass
    started by a request and a pass of the monitoring thread.  However
    their stores interleave, when both are done every endpoint's entry is
    the complete result one of the two passes got for that endpoint, and
    the last-check time is the closing time of one of them; entries of
    different endpoints may come from different passes. *)
Theorem interleaved_passes_per_endpoint (wA wB : world)
    (rsA rsB : list probe_result) (g : globals) (l : list store) :
  Forall2 (probed wA) endpoints_table rsA ->
  Forall2 (probed wB) endpoints_table rsB ->
  interleave (pass_stores wA rsA) (pass_stores wB rsB) l ->
  let g' := fold_left perform l g in
  (forall endpoint, endpoint ∈ endpoints_table ->
     exists r, service_status g' !! endpoint.1 = Some r
       /\ (probed wA endpoint r \/ probed wB endpoint r))
  /\ (last_check_time g' = clock wA \/ last_check_time g' = clock wB).
Proof.
  intros HA HB Hl g'. split.
  - intros [name url] Hendpoint. cbn [fst].
    destruct (Forall2_zip_cover _ _ _ _ HA Hendpoint) as (rA & HrA).
    assert (Hin : StoreStatus name rA ∈ l).
    { apply (interleave_elem _ _ _ _ Hl). left.
      apply pass_stores_status. exists url. exact HrA. }
    destruct (perform_status_written l g name rA Hin) as (r & Hr & Hlook).
    exists r. split; [exact Hlook|].
    apply (interleave_elem _ _ _ _ Hl) in Hr as [Hr | Hr];
      apply pass_stores_status in Hr as (url' & Hr).
    + left.
      assert (url = url') as <-
        by (apply (endpoint_by_name name); [exact Hendpoint|];
            apply elem_of_zip_l in Hr; exact Hr).
      exact (Forall2_zip_elem _ _ _ _ _ HA Hr).
    + right.
      assert (url = url') as <-
        by (apply (endpoint_by_name name); [exact Hendpoint|];
            apply elem_of_zip_l in Hr; exact Hr).
      exact (Forall2_zip_elem _ _ _ _ _ HB Hr).
  - destruct (last l) as [a|] eqn:Hlast.
    + destruct (interleave_last _ _ _ _ Hl Hlast) as [H | H];
        rewrite pass_stores_last in H; injection H as <-;
        [left | right]; apply perform_last_check, Hlast.
    + apply last_None in Hlast.
      assert (Hin : StoreLastCheck (clock wA) ∈ l).
      { apply (interleave_elem _ _ _ _ Hl). left.
        unfold pass_stores. rewrite !elem_of_app. right. right.
        apply list_elem_of_singleton. reflexivity. }
      rewrite Hlast in Hin. apply elem_of_nil in Hin. contradiction.
Qed.

Lemma probed_functional (w : world) (endpoints : list (string * string))
    (rs1 rs2 : list probe_result) :
  Forall2 (probed w) endpoints rs1 -> Forall2 (probed w) endpoints rs2 ->
  rs1 = rs2.
Proof.
  intros H1. revert rs2.
  induction H1 as [|endpoint r1 endpoints rs1 Hr1 _ IH]; intros rs2 H2;
    inversion H2 as [|? r2 ? rs2' Hr2 Hrest]; subst; [reflexivity|].
  unfold probed in Hr1, Hr2. rewrite Hr1 in Hr2. injection Hr2 as <-.
  f_equal. apply IH, Hrest.
Qed.

(** The stores of a pass, run without interruption, are what
    [monitor_services] does. *)
Lemma monitor_services_stores (w : world) (results : list probe_result)
    (g : globals) (c : config) :
  load_config (config_json w) = Return c ->
  Forall2 (probed w) endpoints_table results ->
  monitor_services w g = (Return tt, fold_left perform (pass_stores w results) g).
Proof.
  intros Hload Hresults.
  pose proof (monitor_services_effect w g) as Hpass. rewrite Hload in Hpass.
  destruct Hpass as (results' & Hresults' & ->).
  rewrite (probed_functional _ _ _ _ Hresults Hresults').
  rewrite pass_stores_after_pass. reflexivity.
Qed.

Lemma results_up_probed : Forall2 (probed world_up) endpoints_table results_up.
Proof. repeat constructor. Qed.

Lemma results_down_probed :
  Forall2 (probed world_down) endpoints_table results_down.
Proof. repeat constructor. Qed.

(** C9, as stated, fails: with the monitoring thread's pass under way (one
    result stored, last-check time still 0), a request at time 45 finds the
    state stale and runs its own pass; when both passes are done the
    entry of "API" is the request pass's and the other three are the
    monitoring pass's, which is the outcome of neither pass. *)
Lemma interleaved_passes_mix :
  interleave (pass_stores world_up results_up)
             (pass_stores world_down results_down) mixed_schedule
  /\ (let g1 := perform initial_globals (StoreStatus "API" result_up) in
      refresh_if_stale 45 world_down g1 = monitor_services world_down g1)
  /\ (let g' := fold_left perform mixed_schedule initial_globals in
      service_status g' !! "API" = Some result_down
      /\ service_status g' !! "Discord Bot" = Some result_up
      /\ service_status g'
         <> service_status (snd (monitor_services world_up initial_globals))
      /\ service_status g'
         <> service_status (snd (monitor_services world_down initial_globals))).
Proof.
  split; [|split].
  - vm_compute.
    repeat first [apply interleave_nil | apply interleave_l | apply interleave_r].
  - reflexivity.
  - cbv zeta. split; [vm_compute; reflexivity|].
    split; [vm_compute; reflexivity|].
    split; intros H.
    + apply (f_equal (fun m => status <$> m !! "API")) in H.
      vm_compute in H. discriminate H.
    + apply (f_equal (fun m => status <$> m !! "Discord Bot")) in H.
      vm_compute in H. discriminate H.
Qed.

Lemma interleaved_passes_per_endpoint_witness :
  let g' := fold_left perform mixed_schedule initial_globals in
  (forall endpoint, endpoint ∈ endpoints_table ->
     exists r, service_status g' !! endpoint.1 = Some r
       /\ (probed world_up endpoint r \/ probed world_down endpoint r))
  /\ (last_check_time g' = clock world_up
      \/ last_check_time g' = clock world_down).
Proof.
  apply (interleaved_passes_per_endpoint world_up world_down
           results_up results_down initial_globals mixed_schedule).
  - repeat constructor.
  - repeat constructor.
  - vm_compute.
    repeat first [apply interleave_nil | apply interleave_l | apply interleave_r].
Defined.

(** * Further properties *)

(** Case analysis on membership in a list written out. *)
Ltac list_cases H :=
  repeat (apply elem_of_cons in H as [H | H]; [subst|]);
  try (apply elem_of_nil in H; contradiction).

(** ** Lookups by id *)

Lemma get_status_by_id_loop_none (l : list status_type) (status_id : Z) :
  (forall st, st ∈ l -> StatusID_ st <> status_id) ->
  get_status_by_id_loop l status_id = "Unknown".
Proof.
  induction l as [|st l IH]; intros H; [reflexivity|].
  cbn [get_status_by_id_loop].
  assert ((StatusID_ st =? status_id) = false) as ->
    by (apply Z.eqb_neq, H; left).
  apply IH. intros st' Hst'. apply H. right. exact Hst'.
Qed.

Lemma get_status_by_id_loop_first (l1 l2 : list status_type) (st : status_type) :
  (forall st', st' ∈ l1 -> StatusID_ st' <> StatusID_ st) ->
  get_status_by_id_loop (l1 ++ st :: l2) (StatusID_ st) = Status st.
Proof.
  induction l1 as [|st' l1 IH]; intros H; cbn [app get_status_by_id_loop].
  - rewrite Z.eqb_refl. reflexivity.
  - assert ((StatusID_ st' =? StatusID_ st) = false) as ->
      by (apply Z.eqb_neq, H; left).
    apply IH. intros st'' Hst''. apply H. right. exact Hst''.
Qed.

(** X1: [get_status_by_id] answers "Unknown" when no status type has the
    id, and otherwise the name of the first status type that has it; when
    the ids of the table are distinct, every status type is found under
    its own id. *)
Theorem get_status_by_id_first_match (c : config) :
  (forall status_id,
     (forall st, st ∈ StatusTypes c -> StatusID_ st <> status_id) ->
     get_status_by_id status_id c = "Unknown")
  /\ (forall l1 st l2,
        StatusTypes c = l1 ++ st :: l2 ->
        (forall st', st' ∈ l1 -> StatusID_ st' <> StatusID_ st) ->
        get_status_by_id (StatusID_ st) c = Status st)
  /\ (NoDup (StatusID_ <$> StatusTypes c) ->
      forall st, st ∈ StatusTypes c ->
        get_status_by_id (StatusID_ st) c = Status st).
Proof.
  split; [|split].
  - intros status_id H. apply get_status_by_id_loop_none, H.
  - intros l1 st l2 Hl H. unfold get_status_by_id. rewrite Hl.
    apply get_status_by_id_loop_first, H.
  - intros Hnodup st Hst. unfold get_status_by_id.
    apply list_elem_of_split in Hst as (l1 & l2 & Hl). rewrite Hl in *.
    apply get_status_by_id_loop_first. intros st' Hst' Heq.
    rewrite fmap_app, fmap_cons in Hnodup.
    apply NoDup_app in Hnodup as (_ & Hdisj & _).
    apply (Hdisj (StatusID_ st')).
    + apply list_elem_of_fmap. exists st'. split; [reflexivity | exact Hst'].
    + rewrite Heq. left.
Qed.

Lemma get_status_by_id_first_match_witness :
  get_status_by_id 9 sample_config = "Unknown"
  /\ get_status_by_id 2 sample_config = "Degraded Performance"
  /\ (forall st, st ∈ StatusTypes sample_config ->
        get_status_by_id (StatusID_ st) sample_config = Status st).
Proof.
  destruct (get_status_by_id_first_match sample_config)
    as (Hnone & Hfirst & Hall).
  split; [|split].
  - apply Hnone. intros st Hst. cbn in Hst. list_cases Hst; discriminate.
  - apply (Hfirst [ {| StatusID_ := 1; Status := "Operational" |} ]
             {| StatusID_ := 2; Status := "Degraded Performance" |}
             [ {| StatusID_ := 4; Status := "Major Outage" |} ]).
    + reflexivity.
    + intros st Hst. list_cases Hst. discriminate.
  - apply Hall. cbn.
    repeat (apply NoDup_cons; split;
            [rewrite ?not_elem_of_cons; repeat split;
             try discriminate; apply not_elem_of_nil|]).
    apply NoDup_nil_2.
Defined.

Lemma get_category_by_id_loop_none (l : list category) (category_id : Z) :
  (forall cat, cat ∈ l -> CategoryID_ cat <> category_id) ->
  get_category_by_id_loop l category_id = "Unknown".
Proof.
  induction l as [|cat l IH]; intros H; [reflexivity|].
  cbn [get_category_by_id_loop].
  assert ((CategoryID_ cat =? category_id) = false) as ->
    by (apply Z.eqb_neq, H; left).
  apply IH. intros cat' Hcat'. apply H. right. exact Hcat'.
Qed.

Lemma get_category_by_id_loop_first (l1 l2 : list category) (cat : category) :
  (forall cat', cat' ∈ l1 -> CategoryID_ cat' <> CategoryID_ cat) ->
  get_category_by_id_loop (l1 ++ cat :: l2) (CategoryID_ cat)
  = CategoryName cat.
Proof.
  induction l1 as [|cat' l1 IH]; intros H; cbn [app get_category_by_id_loop].
  - rewrite Z.eqb_refl. reflexivity.
  - assert ((CategoryID_ cat' =? CategoryID_ cat) = false) as ->
      by (apply Z.eqb_neq, H; left).
    apply IH. intros cat'' Hcat''. apply H. right. exact Hcat''.
Qed.

(** X2: [get_category_by_id] answers "Unknown" when no category has the
    id, and otherwise the name of the first category that has it; when the
    ids of the table are distinct, every category is found under its own
    id. *)
Theorem get_category_by_id_first_match (c : config) :
  (forall category_id,
     (forall cat, cat ∈ StatusCategories c -> CategoryID_ cat <> category_id) ->
     get_category_by_id category_id c = "Unknown")
  /\ (forall l1 cat l2,
        StatusCategories c = l1 ++ cat :: l2 ->
        (forall cat', cat' ∈ l1 -> CategoryID_ cat' <> CategoryID_ cat) ->
        get_category_by_id (CategoryID_ cat) c = CategoryName cat)
  /\ (NoDup (CategoryID_ <$> StatusCategories c) ->
      forall cat, cat ∈ StatusCategories c ->
        get_category_by_id (CategoryID_ cat) c = CategoryName cat).
Proof.
  split; [|split].
  - intros category_id H. apply get_category_by_id_loop_none, H.
  - intros l1 cat l2 Hl H. unfold get_category_by_id. rewrite Hl.
    apply get_category_by_id_loop_first, H.
  - intros Hnodup cat Hcat. unfold get_category_by_id.
    apply list_elem_of_split in Hcat as (l1 & l2 & Hl). rewrite Hl in *.
    apply get_category_by_id_loop_first. intros cat' Hcat' Heq.
    rewrite fmap_app, fmap_cons in Hnodup.
    apply NoDup_app in Hnodup as (_ & Hdisj & _).
    apply (Hdisj (CategoryID_ cat')).
    + apply list_elem_of_fmap. exists cat'. split; [reflexivity | exact Hcat'].
    + rewrite Heq. left.
Qed.

Lemma get_category_by_id_first_match_witness :
  get_category_by_id 7 sample_config = "Unknown"
  /\ get_category_by_id 2 sample_config = "Website"
  /\ (forall cat, cat ∈ StatusCategories sample_config ->
        get_category_by_id (CategoryID_ cat) sample_config = CategoryName cat).
Proof.
  destruct (get_category_by_id_first_match sample_config)
    as (Hnone & Hfirst & Hall).
  split; [|split].
  - apply Hnone. intros cat Hcat. cbn in Hcat. list_cases Hcat; discriminate.
  - apply (Hfirst [ {| CategoryID_ := 1; CategoryName := "API" |} ]
             {| CategoryID_ := 2; CategoryName := "Website" |} []).
    + reflexivity.
    + intros cat Hcat. list_cases Hcat. discriminate.
  - apply Hall. cbn.
    repeat (apply NoDup_cons; split;
            [rewrite ?not_elem_of_cons; repeat split;
             try discriminate; apply not_elem_of_nil|]).
    apply NoDup_nil_2.
Defined.

(** ** Severity resolver, as a function of the set of ids *)

Lemma py_min_elem (xs : list Z) (x : Z) : py_min x xs ∈ x :: xs.
Proof.
  unfold py_min. revert x.
  induction xs as [|y ys IH]; intros x; cbn [fold_left]; [left|].
  specialize (IH (Z.min x y)).
  apply elem_of_cons in IH as [IH | IH].
  - rewrite IH. destruct (Z.min_spec x y) as [[_ ->] | [_ ->]].
    + left.
    + right. left.
  - right. right. exact IH.
Qed.

Lemma py_min_least (xs : list Z) (x y : Z) : y ∈ x :: xs -> py_min x xs <= y.
Proof.
  intros Hy. apply elem_of_cons in Hy as [-> | Hy].
  - apply py_min_le_init.
  - pose proof (py_min_lower_bound xs x) as H.
    rewrite Forall_forall in H. apply H, Hy.
Qed.

Lemma dict_get_priority_map_class (k : Z) :
  dict_get priority_map k "operational"
  ∈ ["major-outage"; "partial-outage"; "maintenance"; "degraded";
     "investigating"; "operational"].
Proof.
  unfold priority_map. cbn [dict_get].
  repeat match goal with
         | |- context [?a =? k] => destruct (a =? k)
         end;
    repeat first [left | right].
Qed.

(** X3: [get_status_color] depends only on which ids occur in the list,
    not on their order or their repetitions, and its answer is always one
    of the six class names of the priority map. *)
Theorem get_status_color_set_function (l l' : list Z) :
  (forall x, x ∈ l <-> x ∈ l') ->
  get_status_color l = get_status_color l'
  /\ get_status_color l
     ∈ ["major-outage"; "partial-outage"; "maintenance"; "degraded";
        "investigating"; "operational"].
Proof.
  intros Hsame. split.
  - destruct l as [|x xs], l' as [|y ys].
    + reflexivity.
    + exfalso. apply (elem_of_nil y), Hsame. left.
    + exfalso. apply (elem_of_nil x), Hsame. left.
    + rewrite !get_status_color_min. f_equal.
      apply Z.le_antisymm.
      * apply py_min_least, Hsame, py_min_elem.
      * apply py_min_least, Hsame, py_min_elem.
  - destruct l as [|x xs].
    + repeat first [left | right].
    + rewrite get_status_color_min. apply dict_get_priority_map_class.
Qed.

Lemma get_status_color_set_function_witness :
  get_status_color [3; 6; 3; 2] = get_status_color [2; 3; 6]
  /\ get_status_color [3; 6; 3; 2]
     ∈ ["major-outage"; "partial-outage"; "maintenance"; "degraded";
        "investigating"; "operational"].
Proof.
  apply get_status_color_set_function.
  intros x. rewrite !elem_of_cons, !elem_of_nil. tauto.
Defined.

(** ** Probe results *)

(** X4: whatever the request does, the probe runner returns a result whose
    status is one of operational, degraded, major and investigating; the
    status is operational exactly when the response has code 200, and the
    response time is none exactly when the request raised something other
    than a timeout. *)
Theorem check_service_health_result_shape (name url : string)
    (o : observation) :
  exists r,
    check_service_health name url o = Return r
    /\ status r ∈ ["operational"; "degraded"; "major"; "investigating"]
    /\ (status r = "operational" <-> reply o = Return 200)
    /\ (response_time r = None <->
        exists e, reply o = Raise e /\ is_Timeout e = false).
Proof.
  eexists. split; [apply check_service_health_returns|].
  destruct (reply o) as [code | e] eqn:Hreply.
  - unfold on_response.
    destruct (code =? 200) eqn:E200; [|destruct (Z_in code _) eqn:E5].
    + apply Z.eqb_eq in E200. subst code. cbn.
      split; [repeat first [left | right]|].
      split; [tauto|]. split; [discriminate | intros (e & He & _); discriminate].
    + cbn. split; [repeat first [left | right]|].
      split; [split; [discriminate | intros [= ->]; discriminate]|].
      split; [discriminate | intros (e & He & _); discriminate].
    + cbn. split; [repeat first [left | right]|].
      split; [split; [discriminate | intros [= ->]; discriminate]|].
      split; [discriminate | intros (e & He & _); discriminate].
  - unfold on_failure.
    destruct (is_Timeout e) eqn:Et; [|destruct (is_ConnectionError e)].
    + cbn. split; [repeat first [left | right]|].
      split; [split; discriminate|].
      split; [discriminate | intros (e' & [= <-] & He'); congruence].
    + cbn. split; [repeat first [left | right]|].
      split; [split; discriminate|].
      split; [intros _; exists e; split; [reflexivity | exact Et] | reflexivity].
    + cbn. split; [repeat first [left | right]|].
      split; [split; discriminate|].
      split; [intros _; exists e; split; [reflexivity | exact Et] | reflexivity].
Qed.

Lemma check_service_health_result_shape_witness :
  exists r,
    check_service_health "API" "https://royalguard-api.up.railway.app/"
      (network sample_world "API" "https://royalguard-api.up.railway.app/")
    = Return r
    /\ status r = "operational"
    /\ response_time r <> None.
Proof.
  destruct (check_service_health_result_shape
              "API" "https://royalguard-api.up.railway.app/"
              (network sample_world "API"
                 "https://royalguard-api.up.railway.app/"))
    as (r & Hr & _ & Hop & Hnone).
  exists r. split; [exact Hr|]. split.
  - apply Hop. reflexivity.
  - intros H. apply Hnone in H as (e & He & _). discriminate He.
Defined.

(** ** A pass, its failure and the loop around it *)

(** X5: [monitor_services] raises exactly when reading the configuration
    raises, with that same exception, and then it has written nothing:
    the globals are as they were. *)
Theorem monitor_services_raises_on_load_only (w : world) (g g' : globals)
    (e : exn) :
  monitor_services w g = (Raise e, g')
  <-> load_config (config_json w) = Raise e /\ g' = g.
Proof.
  pose proof (monitor_services_effect w g) as Hpass.
  destruct (load_config (config_json w)) as [c | e'].
  - destruct Hpass as (results & _ & ->).
    split; [discriminate | intros [H _]; discriminate].
  - rewrite Hpass. split.
    + intros [= -> ->]. split; reflexivity.
    + intros [[= ->] ->]. reflexivity.
Qed.

Lemma monitor_services_raises_on_load_only_witness :
  monitor_services
    {| config_json := Malformed; network := network sample_world;
       clock := 18%Q |} two_samples
  = (Raise JSONDecodeError, two_samples).
Proof.
  apply monitor_services_raises_on_load_only. split; reflexivity.
Defined.

Lemma store_results_other (l : list ((string * string) * probe_result))
    (g : globals) (name : string) :
  name ∉ l.*1.*1 ->
  service_status (store_results l g) !! name = service_status g !! name.
Proof.
  revert g. induction l as [|[endpoint r] l IH]; intros g Hname; [reflexivity|].
  unfold store_results in *. cbn [fold_left].
  cbn [fmap list_fmap fst] in Hname.
  apply not_elem_of_cons in Hname as [Hne Hname].
  rewrite IH by exact Hname.
  cbn [set_service_status service_status].
  apply lookup_insert_ne. congruence.
Qed.

Lemma after_pass_service_status (w : world) (results : list probe_result)
    (g : globals) :
  service_status (after_pass w results g)
  = service_status (store_results (zip endpoints_table results) g).
Proof. unfold after_pass. destruct (collected results); reflexivity. Qed.

Lemma after_pass_entry (w : world) (results : list probe_result) (g : globals)
    (endpoint : string * string) :
  Forall2 (probed w) endpoints_table results ->
  endpoint ∈ endpoints_table ->
  exists r, service_status (after_pass w results g) !! endpoint.1 = Some r
            /\ probed w endpoint r.
Proof.
  intros Hall Hendpoint. destruct endpoint as [name url]. cbn [fst].
  destruct (Forall2_zip_cover _ _ _ _ Hall Hendpoint) as (r0 & Hr0).
  rewrite <- pass_stores_after_pass.
  assert (Hin : StoreStatus name r0 ∈ pass_stores w results)
    by (apply pass_stores_status; exists url; exact Hr0).
  destruct (perform_status_written _ g name r0 Hin) as (r & Hr & Hlook).
  exists r. split; [exact Hlook|].
  apply pass_stores_status in Hr as (url' & Hr).
  assert (url = url') as <-
    by (apply (endpoint_by_name name); [exact Hendpoint|];
        apply elem_of_zip_l in Hr; exact Hr).
  exact (Forall2_zip_elem _ _ _ _ _ Hall Hr).
Qed.

(** X6: a pass that gets its endpoint table leaves, under the name of
    every endpoint, the result the probe runner gave for that endpoint in
    this pass, whatever was stored there before, and leaves the entries
    under all other names as they were. *)
Theorem monitor_services_entries (w : world) (g : globals) (c : config) :
  load_config (config_json w) = Return c ->
  exists g',
    monitor_services w g = (Return tt, g')
    /\ (forall endpoint, endpoint ∈ endpoints_table ->
          exists r, service_status g' !! endpoint.1 = Some r
                    /\ probed w endpoint r)
    /\ (forall name, name ∉ endpoint_names ->
          service_status g' !! name = service_status g !! name).
Proof.
  intros Hload.
  pose proof (monitor_services_effect w g) as Hpass. rewrite Hload in Hpass.
  destruct Hpass as (results & Hall & Hrun).
  exists (after_pass w results g). split; [exact Hrun|]. split.
  - intros endpoint Hendpoint. apply after_pass_entry; assumption.
  - intros name Hname. rewrite after_pass_service_status.
    apply store_results_other. intros Hin. apply Hname.
    unfold endpoint_names.
    apply list_elem_of_fmap in Hin as (e1 & -> & He1).
    apply list_elem_of_fmap in He1 as ([e2 r] & -> & He2).
    apply elem_of_zip_l in He2. apply list_elem_of_fmap.
    exists e2. split; [reflexivity | exact He2].
Qed.

Lemma monitor_services_entries_witness :
  exists g',
    monitor_services sample_world initial_globals = (Return tt, g')
    /\ (exists r, service_status g' !! "Discord Bot" = Some r
                  /\ probed sample_world
                       ("Discord Bot", "https://discord.com/api/v10/gateway") r)
    /\ service_status g' !! "Website" = None.
Proof.
  destruct (monitor_services_entries sample_world initial_globals
              empty_config eq_refl) as (g' & Hrun & Hentries & Hothers).
  exists g'. split; [exact Hrun|]. split.
  - apply (Hentries ("Discord Bot", "https://discord.com/api/v10/gateway")).
    right. left.
  - rewrite Hothers; [reflexivity|].
    intros H. cbn in H. list_cases H; discriminate.
Defined.

Lemma monitor_loop_turn_cases (w : world) (g : globals) :
  monitor_loop_turn w g = (Return (sleep_after w), snd (monitor_services w g)).
Proof.
  unfold monitor_loop_turn, sleep_after.
  pose proof (monitor_services_effect w g) as Hpass.
  destruct (load_config (config_json w)) as [c | e].
  - destruct Hpass as (results & _ & ->). reflexivity.
  - rewrite Hpass. reflexivity.
Qed.

(** X7: the monitoring loop survives every turn: whatever the worlds it
    meets, it runs one pass per turn, sleeps 30 seconds after a turn whose
    pass returned and 60 after one whose pass raised, and its globals
    after the turns are those of the passes run one after the other. *)
Theorem monitor_loop_never_stops (ws : list world) (g : globals) :
  monitor_loop ws g = (sleep_after <$> ws, run_passes ws g).
Proof.
  revert g. induction ws as [|w ws IH]; intros g; [reflexivity|].
  cbn [monitor_loop]. rewrite monitor_loop_turn_cases, IH. reflexivity.
Qed.

(** ** Lazy refresh *)

(** X8: after a pass that returned, a request that arrives no more than 30
    seconds after the pass's closing clock reading starts no pass and
    changes nothing; a later one runs a pass. *)
Theorem refresh_if_stale_after_pass (w w' : world) (g : globals) (c : config)
    (t : Q) :
  load_config (config_json w) = Return c ->
  let g1 := snd (monitor_services w g) in
  ((t - clock w <= 30)%Q -> refresh_if_stale t w' g1 = (Return tt, g1))
  /\ ((30 < t - clock w)%Q -> refresh_if_stale t w' g1 = monitor_services w' g1).
Proof.
  intros Hload g1.
  assert (Hclock : last_check_time g1 = clock w).
  { subst g1. pose proof (monitor_services_effect w g) as Hpass.
    rewrite Hload in Hpass. destruct Hpass as (results & _ & ->). reflexivity. }
  unfold refresh_if_stale. rewrite Hclock.
  split; intros Ht; destruct (Qlt_le_dec 30 (t - clock w)) as [Hlt | Hle].
  - exfalso. apply (Qlt_not_le _ _ Hlt), Ht.
  - reflexivity.
  - reflexivity.
  - exfalso. apply (Qlt_not_le _ _ Ht), Hle.
Qed.

Lemma refresh_if_stale_after_pass_witness :
  let g1 := snd (monitor_services world_up initial_globals) in
  refresh_if_stale 20 world_down g1 = (Return tt, g1)
  /\ refresh_if_stale 100 world_down g1 = monitor_services world_down g1.
Proof.
  destruct (refresh_if_stale_after_pass world_up world_down initial_globals
              empty_config 20 eq_refl) as [Hfresh _].
  destruct (refresh_if_stale_after_pass world_up world_down initial_globals
              empty_config 100 eq_refl) as [_ Hstale].
  split.
  - apply Hfresh. cbn [clock world_up]. lra.
  - apply Hstale. cbn [clock world_up]. lra.
Defined.

(** ** Uptime *)

Lemma operational_count_bounds (g : globals) :
  0 <= operational_count g <= Z.of_nat (size (service_status g)).
Proof.
  unfold operational_count.
  pose proof (List.filter_length_le is_operational
                (map_to_list (service_status g)).*2) as Hle.
  rewrite length_fmap, length_map_to_list in Hle. lia.
Qed.

Lemma round2_share_range (ops total : Z) :
  0 <= ops <= total -> 0 < total ->
  exists z, round2 (inject_Z ops / inject_Z total * 100) = (z # 100)%Q
            /\ 0 <= z <= 10000.
Proof.
  intros Hops Htotal. destruct total as [|p|p]; try lia.
  unfold round2. eexists. split; [reflexivity|].
  change (inject_Z ops / inject_Z (Zpos p) * 100 * 100)%Q
    with ((ops * 1 * 100 * 100) # (1 * p * 1 * 1)).
  rewrite round_half_even_frac.
  replace (ops * 1 * 100 * 100) with (10000 * ops) by lia.
  replace (Z.pos (1 * p * 1 * 1)) with (Z.pos p) by lia.
  cbv zeta.
  destruct (Z.compare_spec (2 * ((10000 * ops) mod Z.pos p)) (Z.pos p))
    as [Hc|Hc|Hc];
    [destruct (Z.even _)| |]; Z.div_mod_to_equations; nia.
Qed.

(** X9: whatever the table of statuses holds, [calculate_uptime] is a
    percentage: at least 0 and at most 100. *)
Theorem calculate_uptime_range (g : globals) :
  (0 <= calculate_uptime g)%Q /\ (calculate_uptime g <= 100)%Q.
Proof.
  unfold calculate_uptime.
  destruct (decide (service_status g = ∅)) as [He | Hne].
  - split; unfold Qle; cbn; lia.
  - apply map_size_non_empty_iff in Hne.
    assert ((Z.of_nat (size (service_status g)) =? 0) = false) as -> by lia.
    fold (operational_count g).
    destruct (round2_share_range (operational_count g)
                (Z.of_nat (size (service_status g))))
      as (z & -> & Hz); [apply operational_count_bounds | lia |].
    split; unfold Qle; cbn; lia.
Qed.

(** After any run of passes the table of statuses is empty or has an
    entry for each endpoint. *)
Lemma run_passes_all_or_nothing (ws : list world) :
  let g := run_passes ws initial_globals in
  service_status g = ∅
  \/ forall name, name ∈ endpoint_names -> is_Some (service_status g !! name).
Proof.
  induction ws as [|w ws IH] using rev_ind; [left; reflexivity|].
  cbv zeta in *. rewrite run_passes_snoc.
  pose proof (monitor_services_effect w (run_passes ws initial_globals)) as Hpass.
  destruct (load_config (config_json w)) as [c | e].
  - right. destruct Hpass as (results & Hall & ->). cbn [snd].
    intros name Hname. unfold endpoint_names in Hname.
    apply list_elem_of_fmap in Hname as (endpoint & -> & Hendpoint).
    destruct (after_pass_entry w results (run_passes ws initial_globals)
                endpoint Hall Hendpoint) as (r & -> & _).
    eauto.
  - rewrite Hpass. exact IH.
Qed.

Lemma endpoint_names_NoDup : NoDup endpoint_names.
Proof.
  unfold endpoint_names, endpoints_table. cbn [fmap list_fmap fst].
  repeat (apply NoDup_cons; split; [rewrite ?not_elem_of_cons; repeat split;
                                     try discriminate; apply not_elem_of_nil|]).
  apply NoDup_nil_2.
Qed.

(** X10: after any run of passes from the initial globals, a table of
    statuses that is not empty holds exactly four services, so the uptime
    is 25 times the number of operational services: 0, 25, 50, 75 or
    100. *)
Theorem calculate_uptime_quarters (ws : list world) :
  let g := run_passes ws initial_globals in
  service_status g <> ∅ ->
  size (service_status g) = 4%nat
  /\ 0 <= operational_count g <= 4
  /\ calculate_uptime g = (2500 * operational_count g # 100)%Q.
Proof.
  intros g Hne.
  assert (Hsize : size (service_status g) = 4%nat).
  { destruct (run_passes_all_or_nothing ws) as [He | Hall]; [contradiction|].
    rewrite <- size_dom.
    assert (Hdom : dom (service_status g) = list_to_set endpoint_names).
    { apply set_eq. intros name. rewrite elem_of_dom, elem_of_list_to_set.
      split; [apply run_passes_known | apply Hall]. }
    rewrite Hdom, size_list_to_set by apply endpoint_names_NoDup. reflexivity. }
  pose proof (operational_count_bounds g) as Hops. rewrite Hsize in Hops.
  split; [exact Hsize|]. split; [lia|].
  rewrite calculate_uptime_nonempty by exact Hne. rewrite Hsize.
  assert (Hcases : operational_count g = 0 \/ operational_count g = 1
                   \/ operational_count g = 2 \/ operational_count g = 3
                   \/ operational_count g = 4) by lia.
  destruct Hcases as [-> | [-> | [-> | [-> | ->]]]]; reflexivity.
Qed.

Lemma calculate_uptime_quarters_witness :
  let g := run_passes [sample_world] initial_globals in
  size (service_status g) = 4%nat
  /\ 0 <= operational_count g <= 4
  /\ calculate_uptime g = (2500 * operational_count g # 100)%Q.
Proof.
  apply (calculate_uptime_quarters [sample_world]).
  intros Hempty.
  assert (H : service_status (run_passes [sample_world] initial_globals)
              !! "API" = None) by (rewrite Hempty; apply lookup_empty).
  vm_compute in H. discriminate H.
Defined.

(** ** Rolling window and its average *)

(** X11: appending any run of samples to any window within capacity
    leaves the last 100 samples of the old window followed by the new
    samples, in order; the window then holds 100 samples, or all of them
    when they are fewer. *)
Theorem deque_appends_keep_latest (d xs : list Q) :
  (length d <= 100)%nat ->
  fold_left deque_append xs d = drop (length (d ++ xs) - 100) (d ++ xs)
  /\ length (fold_left deque_append xs d) = Nat.min 100 (length (d ++ xs)).
Proof.
  intros Hd.
  assert (H : fold_left deque_append xs d
              = drop (length (d ++ xs) - 100) (d ++ xs))
    by (apply deque_appends_drop; exact Hd).
  split; [exact H|]. rewrite H, length_drop. lia.
Qed.

Lemma deque_appends_keep_latest_witness :
  let d := [1%Q; 2%Q] in
  let xs := map inject_Z (seqZ 3 150) in
  fold_left deque_append xs d = drop (length (d ++ xs) - 100) (d ++ xs)
  /\ length (fold_left deque_append xs d) = Nat.min 100 (length (d ++ xs)).
Proof.
  apply (deque_appends_keep_latest [1%Q; 2%Q] (map inject_Z (seqZ 3 150))).
  cbn [length]. lia.
Defined.

Lemma round_half_even_ge (x : Q) (k : Z) :
  (inject_Z k <= x)%Q -> k <= round_half_even x.
Proof.
  intros Hk. unfold round_half_even.
  assert (Hf : k <= Qfloor x).
  { rewrite <- (Qfloor_Z k). apply Qfloor_resp_le, Hk. }
  destruct (Qcompare _ _); [destruct (Z.even _)| |]; lia.
Qed.

Lemma round_half_even_le (x : Q) (k : Z) :
  (x <= inject_Z k)%Q -> round_half_even x <= k.
Proof.
  intros Hk. unfold round_half_even.
  assert (Hf : Qfloor x <= k).
  { rewrite <- (Qfloor_Z k). apply Qfloor_resp_le, Hk. }
  destruct (Z.eq_dec (Qfloor x) k) as [Heq | Hne].
  - assert (Hx : (x - inject_Z (Qfloor x) <= 0)%Q) by (rewrite Heq; lra).
    destruct (Qcompare_spec (x - inject_Z (Qfloor x)) (1 # 2)) as [H|H|H].
    + rewrite H in Hx. lra.
    + lia.
    + lra.
  - destruct (Qcompare _ _); [destruct (Z.even _)| |]; lia.
Qed.

Lemma hundredths (z : Z) : (z # 100 == inject_Z z * (1 # 100))%Q.
Proof. unfold Qeq. cbn [Qnum Qden Qmult inject_Z]. lia. Qed.

(** Rounding to two decimals stays between two-decimal bounds. *)
Lemma round2_between (x : Q) (lo hi : Z) :
  (lo # 100 <= x)%Q -> (x <= hi # 100)%Q ->
  (lo # 100 <= round2 x)%Q /\ (round2 x <= hi # 100)%Q.
Proof.
  intros Hlo Hhi. rewrite hundredths in Hlo, Hhi.
  unfold round2.
  assert (H1 : lo <= round_half_even (x * 100))
    by (apply round_half_even_ge; lra).
  assert (H2 : round_half_even (x * 100) <= hi)
    by (apply round_half_even_le; lra).
  split; unfold Qle; cbn [Qnum Qden]; lia.
Qed.

Lemma fold_Qplus_between (l : list Q) (lo hi acc : Q) :
  (forall x, x ∈ l -> (lo <= x)%Q /\ (x <= hi)%Q) ->
  (acc + inject_Z (Z.of_nat (length l)) * lo <= fold_left Qplus l acc)%Q
  /\ (fold_left Qplus l acc <= acc + inject_Z (Z.of_nat (length l)) * hi)%Q.
Proof.
  revert acc. induction l as [|x l IH]; intros acc H.
  - cbn [fold_left length]. change (inject_Z (Z.of_nat 0)) with 0%Q.
    split; lra.
  - cbn [fold_left length].
    destruct (H x) as [Hx1 Hx2]; [left|].
    destruct (IH (acc + x)%Q) as [IH1 IH2];
      [intros y Hy; apply H; right; exact Hy|].
    rewrite Nat2Z.inj_succ, <- Z.add_1_r, inject_Z_plus.
    change (inject_Z 1) with 1%Q.
    split; lra.
Qed.



(** ** Timeline: colours, skipped entries, a single incident *)

Lemma status_of_ids_class (ids : list Z) :
  status_of_ids ids
  ∈ ["major"; "partial"; "degraded"; "maintenance"; "investigating"].
Proof.
  unfold status_of_ids.
  repeat match goal with |- context [Z_in ?a ids] => destruct (Z_in a ids) end;
    repeat first [left | right].
Qed.

Lemma get_day_status_color_of_ids (ids : list Z) :
  get_day_status_color (status_of_ids ids) ∈ ["red"; "yellow"].
Proof.
  pose proof (status_of_ids_class ids) as H.
  rewrite !elem_of_cons, elem_of_nil in H.
  destruct H as [-> | [-> | [-> | [-> | [-> | []]]]]];
    vm_compute; repeat first [left | right].
Qed.

Lemma fold_append_filter {A B : Type} (p : A -> bool) (f : A -> B)
    (l : list A) (acc : list B) :
  fold_left (fun acc x => if p x then acc ++ [f x] else acc) l acc
  = acc ++ map f (List.filter p l).
Proof.
  revert acc. induction l as [|x l IH]; intros acc; cbn [fold_left List.filter].
  - rewrite app_nil_r. reflexivity.
  - rewrite IH. destruct (p x); [|reflexivity].
    cbn [map]. rewrite <- app_assoc. reflexivity.
Qed.

Lemma strftime_Ymd_same_day (a b : datetime) :
  toordinal a = toordinal b -> strftime_Ymd a = strftime_Ymd b.
Proof. intros H. unfold strftime_Ymd. rewrite H. reflexivity. Qed.

Section TimelineExtras.

Variable utcoffset : Z -> Z.
Variable posix_of_local : datetime -> Z.


Lemma build_incident_map_skip_past (c : config) (l1 l2 : list incident)
    (i : incident) :
  truthy (StartedAt i) = false ->
  build_incident_map utcoffset (with_past c (l1 ++ i :: l2))
  = build_incident_map utcoffset (with_past c (l1 ++ l2)).
Proof.
  intros Hi. unfold build_incident_map.
  cbn [PastIncidents CurrentStatuses with_past].
  rewrite !fold_left_app. cbn [fold_left].
  unfold index_past at 2. rewrite Hi. reflexivity.
Qed.

Lemma build_incident_map_skip_current (c : config) (l1 l2 : list incident)
    (i : incident) :
  truthy (StartedAt i) = false \/ truthy (FixedAt i) = true ->
  build_incident_map utcoffset (with_current c (l1 ++ i :: l2))
  = build_incident_map utcoffset (with_current c (l1 ++ l2)).
Proof.
  intros Hi. unfold build_incident_map.
  cbn [PastIncidents CurrentStatuses with_current].
  rewrite !fold_left_app. cbn [fold_left].
  unfold index_current at 2.
  assert (negb (truthy (FixedAt i)) && truthy (StartedAt i) = false) as ->
    by (destruct Hi as [-> | ->]; [apply andb_false_r | reflexivity]).
  reflexivity.
Qed.

(** X14: the timeline ignores a past incident without a start time, and a
    current status that has no start time or is already fixed: with or
    without such an entry, anywhere in its list, the builder returns the
    same history. *)
Theorem timeline_skips_undated_and_fixed (c : config) (l1 l2 : list incident)
    (i : incident) (today : datetime) :
  (truthy (StartedAt i) = false ->
   generate_90_day_history utcoffset posix_of_local
     (Holds (with_past c (l1 ++ i :: l2))) today
   = generate_90_day_history utcoffset posix_of_local
       (Holds (with_past c (l1 ++ l2))) today)
  /\ (truthy (StartedAt i) = false \/ truthy (FixedAt i) = true ->
      generate_90_day_history utcoffset posix_of_local
        (Holds (with_current c (l1 ++ i :: l2))) today
      = generate_90_day_history utcoffset posix_of_local
          (Holds (with_current c (l1 ++ l2))) today).
Proof.
  split; intros Hi; unfold generate_90_day_history;
    cbn [load_config open_and_parse try_except mbind outcome_bind].
  - rewrite build_incident_map_skip_past by exact Hi. reflexivity.
  - rewrite build_incident_map_skip_current by exact Hi. reflexivity.
Qed.


(** ** The detail page of a date *)

Lemma detail_past_entries (c : config) (d : string) (l : list incident) :
  detail_core
    <$> map (detail_of_past utcoffset c)
          (List.filter
             (fun incident =>
                truthy (StartedAt incident)
                && String.eqb
                     (strftime_Ymd
                        (fromtimestamp utcoffset (get (StartedAt incident) 0)))
                     d) l)
  = summary_core
      <$> (entry_summary <$> on_date d (omap (past_entry utcoffset) l)).
Proof.
  induction l as [|i l IH]; [reflexivity|].
  cbn [List.filter omap list_omap]. unfold past_entry at 1.
  destruct (truthy (StartedAt i)); cbn [andb]; [|exact IH].
  unfold on_date in *.
  destruct (String.eqb_spec
              (strftime_Ymd (fromtimestamp utcoffset (get (StartedAt i) 0))) d)
    as [Heq | Hne].
  - rewrite filter_cons_True by exact Heq.
    cbn [map fmap list_fmap]. f_equal. exact IH.
  - rewrite filter_cons_False by exact Hne. exact IH.
Qed.

Lemma detail_current_entries (c : config) (d : string) (l : list incident) :
  detail_core
    <$> map (detail_of_current utcoffset c)
          (List.filter
             (fun status =>
                truthy (StartedAt status) && negb (truthy (FixedAt status))
                && String.eqb
                     (strftime_Ymd
                        (fromtimestamp utcoffset (get (StartedAt status) 0)))
                     d) l)
  = summary_core
      <$> (entry_summary <$> on_date d (omap (current_entry utcoffset) l)).
Proof.
  induction l as [|i l IH]; [reflexivity|].
  cbn [List.filter omap list_omap]. unfold current_entry at 1.
  rewrite (andb_comm (truthy (StartedAt i))).
  destruct (negb (truthy (FixedAt i)) && truthy (StartedAt i));
    cbn [andb]; [|exact IH].
  unfold on_date in *.
  destruct (String.eqb_spec
              (strftime_Ymd (fromtimestamp utcoffset (get (StartedAt i) 0))) d)
    as [Heq | Hne].
  - rewrite filter_cons_True by exact Heq.
    cbn [map fmap list_fmap]. f_equal. exact IH.
  - rewrite filter_cons_False by exact Hne. exact IH.
Qed.

(** For any date string, the detail page lists the entries filed under
    that date, and never says not-found. *)
Lemma incident_detail_entries (f : config_file) (c : config) (d : string) :
  load_config f = Return c ->
  exists page,
    incident_detail utcoffset f d = Return page
    /\ page_date page = d
    /\ detail_core <$> page_incidents page
       = summary_core
           <$> (entry_summary <$> on_date d (indexed_entries utcoffset c))
    /\ (page_not_found page = Some false <-> page_incidents page = [])
    /\ page_not_found page <> Some true.
Proof.
  intros Hload. unfold incident_detail. rewrite Hload.
  cbn [mbind outcome_bind].
  rewrite !fold_append_filter. cbn [app].
  set (past := map _ (List.filter _ (PastIncidents c))).
  set (current := map _ (List.filter _ (CurrentStatuses c))).
  assert (Hcore : detail_core <$> (past ++ current)
                  = summary_core
                      <$> (entry_summary
                             <$> on_date d (indexed_entries utcoffset c))).
  { subst past current. unfold indexed_entries, on_date.
    rewrite filter_app, !fmap_app.
    fold (on_date d (omap (past_entry utcoffset) (PastIncidents c))).
    fold (on_date d (omap (current_entry utcoffset) (CurrentStatuses c))).
    rewrite <- (detail_past_entries c), <- (detail_current_entries c).
    reflexivity. }
  destruct (past ++ current) as [|x l] eqn:E.
  - eexists. split; [reflexivity|].
    cbn [page_date page_incidents page_not_found].
    split; [reflexivity|]. split; [exact Hcore|].
    split; [split; reflexivity | discriminate].
  - eexists. split; [reflexivity|].
    cbn [page_date page_incidents page_not_found].
    split; [reflexivity|]. split; [exact Hcore|].
    split; [split; discriminate | discriminate].
Qed.


End TimelineExtras.


Lemma timeline_skips_undated_and_fixed_witness :
  generate_90_day_history utc posix_of_utc
    (Holds (with_past log_6_then_4
              ([incident_with 1700000000 [6]] ++ undated_incident
               :: [incident_with 1700000060 [4]]))) today_20231114
  = generate_90_day_history utc posix_of_utc
      (Holds (with_past log_6_then_4
                ([incident_with 1700000000 [6]]
                 ++ [incident_with 1700000060 [4]]))) today_20231114
  /\ generate_90_day_history utc posix_of_utc
       (Holds (with_current log_6_then_4
                 ([] ++ incident_with 1700000060 [4] :: []))) today_20231114
     = generate_90_day_history utc posix_of_utc
         (Holds (with_current log_6_then_4 ([] ++ []))) today_20231114.
Proof.
  destruct (timeline_skips_undated_and_fixed utc posix_of_utc log_6_then_4
              [incident_with 1700000000 [6]] [incident_with 1700000060 [4]]
              undated_incident today_20231114) as [Hpast _].
  destruct (timeline_skips_undated_and_fixed utc posix_of_utc log_6_then_4
              [] [] (incident_with 1700000060 [4]) today_20231114)
    as [_ Hcurrent].
  split.
  - apply Hpast. reflexivity.
  - apply Hcurrent. right. reflexivity.
Defined.



(** ** Formatted timestamps *)

Lemma month_name_prefix_inj (m1 m2 : Z) (s1 s2 : string) :
  1 <= m1 <= 12 -> 1 <= m2 <= 12 ->
  month_name m1 +:+ " " +:+ s1 = month_name m2 +:+ " " +:+ s2 ->
  m1 = m2 /\ s1 = s2.
Proof.
  intros H1 H2.
  assert (C1 : m1 = 1 \/ m1 = 2 \/ m1 = 3 \/ m1 = 4 \/ m1 = 5 \/ m1 = 6
               \/ m1 = 7 \/ m1 = 8 \/ m1 = 9 \/ m1 = 10 \/ m1 = 11
               \/ m1 = 12) by lia.
  assert (C2 : m2 = 1 \/ m2 = 2 \/ m2 = 3 \/ m2 = 4 \/ m2 = 5 \/ m2 = 6
               \/ m2 = 7 \/ m2 = 8 \/ m2 = 9 \/ m2 = 10 \/ m2 = 11
               \/ m2 = 12) by lia.
  clear H1 H2.
  repeat (destruct C1 as [C1 | C1]); subst m1;
    repeat (destruct C2 as [C2 | C2]); subst m2;
    intros H; vm_compute in H;
    first [exfalso; congruence | split; [reflexivity | congruence]].
Qed.

(** The hour of the day is read off the 12-hour clock face and the half
    of the day. *)
Lemma clock_face_inj (h1 h2 : Z) :
  0 <= h1 < 24 -> 0 <= h2 < 24 ->
  (if h1 mod 12 =? 0 then 12 else h1 mod 12)
  = (if h2 mod 12 =? 0 then 12 else h2 mod 12) ->
  (h1 <? 12) = (h2 <? 12) ->
  h1 = h2.
Proof.
  intros H1 H2 Hface Hhalf.
  destruct (Z.eqb_spec (h1 mod 12) 0), (Z.eqb_spec (h2 mod 12) 0),
    (Z.ltb_spec h1 12), (Z.ltb_spec h2 12);
    try discriminate; Z.div_mod_to_equations; lia.
Qed.

Lemma strftime_long_inj (a b : datetime) :
  0 <= second_of_day a < 86400 -> 0 <= second_of_day b < 86400 ->
  strftime_long a = strftime_long b ->
  toordinal a = toordinal b
  /\ second_of_day a / 60 = second_of_day b / 60.
Proof.
  intros Ha Hb. unfold strftime_long.
  pose proof (ord2ymd_spec (toordinal a)) as Hya.
  pose proof (ord2ymd_spec (toordinal b)) as Hyb.
  destruct (ord2ymd (toordinal a)) as [[ya ma] da].
  destruct (ord2ymd (toordinal b)) as [[yb mb] db].
  set (ha := second_of_day a / 3600). set (hb := second_of_day b / 3600).
  set (mia := second_of_day a mod 3600 / 60).
  set (mib := second_of_day b mod 3600 / 60).
  set (fa := if ha mod 12 =? 0 then 12 else ha mod 12).
  set (fb := if hb mod 12 =? 0 then 12 else hb mod 12).
  intros H.
  apply (month_name_prefix_inj ma mb) in H as [Hm H]; [|lia..].
  injection H as Hd1 Hd2 H.
  change ("" +:+ ?s) with s in H.
  apply string_app_inj_suffix in H as [Hy H];
    [|destruct (ha <? 12), (hb <? 12); reflexivity].
  apply (inj pretty) in Hy.
  injection H as Hf1 Hf2 Hmi1 Hmi2 Hhalf.
  change ("" +:+ ?s) with s in Hhalf.
  assert (Hd : da = db)
    by (apply two_digits_inj; [lia | lia | unfold two_digits; congruence]).
  assert (Hha : 0 <= ha < 24) by (subst ha; Z.div_mod_to_equations; lia).
  assert (Hhb : 0 <= hb < 24) by (subst hb; Z.div_mod_to_equations; lia).
  assert (Hf : fa = fb).
  { apply two_digits_inj; [| |unfold two_digits; congruence].
    - subst fa. destruct (ha mod 12 =? 0); Z.div_mod_to_equations; lia.
    - subst fb. destruct (hb mod 12 =? 0); Z.div_mod_to_equations; lia. }
  assert (Hmi : mia = mib).
  { apply two_digits_inj; [| |unfold two_digits; congruence].
    - subst mia. Z.div_mod_to_equations; lia.
    - subst mib. Z.div_mod_to_equations; lia. }
  assert (Hh : ha = hb).
  { apply clock_face_inj; [exact Hha | exact Hhb | exact Hf |].
    destruct (ha <? 12), (hb <? 12);
      first [reflexivity | discriminate Hhalf]. }
  split.
  - subst. lia.
  - subst ha hb mia mib. Z.div_mod_to_equations. lia.
Qed.

(** X17: [format_timestamp] loses the seconds and nothing else: two
    timestamps, neither of them 0, that it formats to the same text lie in
    the same minute of local time. *)
Theorem format_timestamp_keeps_minute (utcoffset : Z -> Z) (t1 t2 : Z) :
  t1 <> 0 -> t2 <> 0 ->
  format_timestamp utcoffset (Some t1) = format_timestamp utcoffset (Some t2) ->
  (t1 + utcoffset t1) / 60 = (t2 + utcoffset t2) / 60.
Proof.
  intros H1 H2. unfold format_timestamp. cbn [truthy get].
  assert ((t1 =? 0) = false) as -> by lia.
  assert ((t2 =? 0) = false) as -> by lia.
  cbn [negb]. intros [= H].
  apply strftime_long_inj in H as [Hord Hmin];
    cbn [fromtimestamp second_of_day toordinal] in *;
    [|Z.div_mod_to_equations; lia..].
  Z.div_mod_to_equations. lia.
Qed.

Lemma format_timestamp_keeps_minute_witness :
  format_timestamp utc (Some 1700000000)
  = Some "November 14, 2023 at 10:13 PM"
  /\ (1700000000 + utc 1700000000) / 60 = (1700000010 + utc 1700000010) / 60.
Proof.
  split; [vm_compute; reflexivity|].
  apply (format_timestamp_keeps_minute utc 1700000000 1700000010).
  - discriminate.
  - discriminate.
  - vm_compute. reflexivity.
Defined.

(** The formats at midnight, at noon and in the hour after each. *)
Example format_timestamp_clock :
  format_timestamp utc (Some 86400) = Some "January 02, 1970 at 12:00 AM"
  /\ format_timestamp utc (Some 43200) = Some "January 01, 1970 at 12:00 PM"
  /\ format_timestamp utc (Some 3600) = Some "January 01, 1970 at 01:00 AM"
  /\ format_timestamp utc (Some 46800) = Some "January 01, 1970 at 01:00 PM"
  /\ format_timestamp utc (Some 0) = None
  /\ format_timestamp utc None = None.
Proof. repeat split; vm_compute; reflexivity. Qed.

(** ** The status page *)

Lemma config_status_find (l : list incident) (category_id : Z) :
  config_status l category_id false "operational" =
  match List.find (names_category category_id) l with
  | Some status => (true, get_status_color (get (StatusID status) []))
  | None => (false, "operational")
  end.
Proof.
  induction l as [|status l IH]; [reflexivity|].
  cbn [config_status List.find]. unfold names_category at 1, unresolved.
  destruct (negb (truthy (FixedAt status))
            && Z_in category_id (get (CategoryID status) []));
    [reflexivity | exact IH].
Qed.

Lemma find_first_split {A : Type} (p : A -> bool) (l : list A) (x : A) :
  List.find p l = Some x ->
  exists l1 l2, l = l1 ++ x :: l2
    /\ (forall y, y ∈ l1 -> p y = false) /\ p x = true.
Proof.
  induction l as [|y l IH]; [discriminate|].
  cbn [List.find]. destruct (p y) eqn:Ey.
  - intros [= ->]. exists [], l. split; [reflexivity|].
    split; [intros y' Hy'; apply elem_of_nil in Hy'; contradiction | exact Ey].
  - intros Hfind. destruct (IH Hfind) as (l1 & l2 & -> & Hl1 & Hx).
    exists (y :: l1), l2. split; [reflexivity|]. split; [|exact Hx].
    intros y' Hy'. apply elem_of_cons in Hy' as [-> | Hy'];
      [exact Ey | apply Hl1, Hy'].
Qed.

(** X18: the row of a category whose name is a key of the table of
    statuses comes from the probe alone and not from the configuration.
    The row of any other category says Operational, with class
    operational, exactly when no open current status lists the category;
    otherwise it says Issues Detected, with the class of the first open
    current status that lists it. *)
Theorem category_row_sources (c c' : config) (g : globals) (cat : category) :
  (is_Some (service_status g !! CategoryName cat) ->
   category_row_of c g cat = category_row_of c' g cat)
  /\ (service_status g !! CategoryName cat = None ->
      (row_status (category_row_of c g cat) = "Operational"
       <-> forall status, status ∈ CurrentStatuses c ->
             names_category (CategoryID_ cat) status = false)
      /\ (row_status (category_row_of c g cat) = "Operational"
          -> row_status_class (category_row_of c g cat) = "operational")
      /\ (row_status (category_row_of c g cat) <> "Operational"
          -> exists l1 status l2,
               CurrentStatuses c = l1 ++ status :: l2
               /\ (forall s, s ∈ l1 ->
                     names_category (CategoryID_ cat) s = false)
               /\ names_category (CategoryID_ cat) status = true
               /\ row_status (category_row_of c g cat) = "Issues Detected"
               /\ row_status_class (category_row_of c g cat)
                  = get_status_color (get (StatusID status) []))).
Proof.
  split.
  - intros [info Hinfo]. unfold category_row_of. rewrite Hinfo. reflexivity.
  - intros Hnone. unfold category_row_of. rewrite Hnone, config_status_find.
    destruct (List.find _ _) as [status|] eqn:Hfind; cbn.
    + split; [|split].
      * split; [discriminate|]. intros Hall.
        apply find_some in Hfind as [Hin Hp].
        rewrite (Hall status) in Hp by (apply list_elem_of_In, Hin).
        discriminate.
      * discriminate.
      * intros _.
        destruct (find_first_split _ _ _ Hfind) as (l1 & l2 & Hl & Hl1 & Hst).
        exists l1, status, l2. repeat split; assumption.
    + split; [|split].
      * split; [|reflexivity]. intros _ status Hin.
        apply list_elem_of_In in Hin.
        apply (find_none _ _ Hfind status Hin).
      * reflexivity.
      * intros H. contradiction.
Qed.

Lemma category_row_sources_witness :
  category_row_of sample_config
    (run_passes [sample_world] initial_globals)
    {| CategoryID_ := 1; CategoryName := "API" |}
  = category_row_of empty_config
      (run_passes [sample_world] initial_globals)
      {| CategoryID_ := 1; CategoryName := "API" |}
  /\ row_status (category_row_of sample_config initial_globals
                   {| CategoryID_ := 1; CategoryName := "API" |})
     = "Operational"
  /\ row_status (category_row_of sample_config initial_globals
                   {| CategoryID_ := 2; CategoryName := "Website" |})
     = "Issues Detected".
Proof.
  destruct (category_row_sources sample_config empty_config
              (run_passes [sample_world] initial_globals)
              {| CategoryID_ := 1; CategoryName := "API" |}) as [Hlive _].
  destruct (category_row_sources sample_config empty_config initial_globals
              {| CategoryID_ := 1; CategoryName := "API" |})
    as [_ Hquiet].
  destruct (category_row_sources sample_config empty_config initial_globals
              {| CategoryID_ := 2; CategoryName := "Website" |})
    as [_ Hissue].
  split; [|split].
  - apply Hlive. eexists. vm_compute. reflexivity.
  - destruct (Hquiet eq_refl) as (Hiff & _ & _). apply Hiff.
    intros status Hstatus. cbn in Hstatus. list_cases Hstatus; reflexivity.
  - destruct (Hissue eq_refl) as (_ & _ & Hnot).
    destruct Hnot as (_ & _ & _ & _ & _ & _ & Htext & _);
      [vm_compute; discriminate | exact Htext].
Defined.

Lemma refresh_if_stale_returns (t : Q) (w : world) (g : globals) (c : config) :
  load_config (config_json w) = Return c ->
  refresh_if_stale t w g = (Return tt, snd (refresh_if_stale t w g)).
Proof.
  intros Hload. unfold refresh_if_stale.
  destruct (Qlt_le_dec 30 (t - last_check_time g)); [|reflexivity].
  pose proof (monitor_services_effect w g) as Hpass. rewrite Hload in Hpass.
  destruct Hpass as (results & _ & ->). reflexivity.
Qed.

Lemma format_timestamp_Some (utcoffset : Z -> Z) (t : option Z) :
  truthy t = true -> is_Some (format_timestamp utcoffset t).
Proof. intros Ht. unfold format_timestamp. rewrite Ht. eauto. Qed.

Lemma category_row_fields (c : config) (g : globals) (cat : category) :
  row_name (category_row_of c g cat) = CategoryName cat
  /\ row_uptime (category_row_of c g cat) = calculate_uptime g.
Proof.
  unfold category_row_of.
  destruct (service_status g !! CategoryName cat) as [info|].
  - destruct (live_status (status info)). split; reflexivity.
  - destruct (config_status _ _ _ _). split; reflexivity.
Qed.

Section IndexExtras.

Variable utcoffset : Z -> Z.
Variable posix_of_local : datetime -> Z.


(** The page [index] returns when its reads of the configuration
    return. *)
Lemma index_returns (rq : request) (g : globals) (c ch : config) :
  load_config (config_at_start rq) = Return c ->
  ShowStatuses c = true ->
  refresh_if_stale (current_time rq) (pass_world rq) g
  = (Return tt, snd (refresh_if_stale (current_time rq) (pass_world rq) g)) ->
  load_config (config_for_history rq) = Return ch ->
  let g' := snd (refresh_if_stale (current_time rq) (pass_world rq) g) in
  index utcoffset posix_of_local rq g
  = (Return (Statuses
       {| current_statuses :=
            map (current_card utcoffset c)
                (List.filter unresolved (CurrentStatuses c));
          past_incidents :=
            map (past_card utcoffset c)
                (List.filter (fun i => truthy (FixedAt i)) (PastIncidents c));
          categories := map (category_row_of c g') (StatusCategories c);
          overall_uptime := calculate_uptime g';
          history_data := history_of utcoffset posix_of_local ch (today rq);
          current_response_time := get_current_response_time g' |}), g').
Proof.
  intros Hload Hshow Hrefresh Hhist g'.
  unfold index, lift, mbind at 1, M_bind at 1.
  rewrite Hload, Hshow. cbn [negb].
  unfold mbind at 1, M_bind at 1. rewrite Hrefresh. fold g'.
  unfold mbind, M_bind, gets, mret, M_ret.
  rewrite (generate_90_day_history_returns _ _ _ _ _ Hhist).
  rewrite !fold_append_filter. reflexivity.
Qed.



End IndexExtras.



(** The sample request, made on the initial globals, is stale: it runs a
    pass, and the page shows the first endpoint live and the uptime of one
    service in four. *)
Example index_sample :
  exists context g',
    index utc posix_of_utc sample_request initial_globals
    = (Return (Statuses context), g')
    /\ (fun row => (row_name row, row_status row, row_status_class row))
         <$> categories context
       = [ ("API", "Operational", "operational");
           ("Website", "Issues Detected", "degraded") ]
    /\ overall_uptime context = (2500 # 100)%Q
    /\ last_check_time g' = 18%Q.
Proof. eexists _, _. vm_compute. repeat split; reflexivity. Qed.
